(** * Layout resolution of [textual/_resolve.py]

    A shallow embedding of [resolve] and [resolve_fraction_unit] and the
    properties of the one-dimensional layout engine stated about them.

    Python's [Fraction] is an exact, normalised rational: it is modelled by
    the canonical rationals [Qc], whose equality is Leibniz equality.
    Python's [int] is [Z].  A finite Python [float] is a binary64 number,
    given by the rational it denotes; the sum of floats rounds.  Exceptions
    are explicit: a computation that may raise returns a [result]. *)

From Stdlib Require Import String ZArith QArith Qcanon Qround Qreduction Qpower.
From Stdlib Require Import List Permutation Bool Lia Lqa.
Import ListNotations.

Local Open Scope Qc_scope.

(** ** Python values *)

Abbreviation Fraction := Qc (only parsing).

(** [Fraction(n)] for an [int] [n]. *)
Definition Fraction_of_int (n : Z) : Fraction := Q2Qc (inject_Z n).

(** [fraction.__floor__()]: numerator // denominator. *)
Definition floor (q : Fraction) : Z := Qfloor q.

Definition Qceqb (x y : Qc) : bool := Qeq_bool x y.

Definition Qcltb (x y : Qc) : bool :=
  match x ?= y with Lt => true | _ => false end.

Definition Qcleb (x y : Qc) : bool :=
  match x ?= y with Gt => false | _ => true end.

(** Truth value of a [Fraction]: false exactly for zero. *)
Definition truthy (q : Fraction) : bool := negb (Qceqb q 0).

(** [max(a, b)] of Python: the first argument unless the second is
    strictly greater. *)
Definition py_max (a b : Fraction) : Fraction := if Qcltb a b then b else a.

(** [sum(xs)] of [Fraction]s: left fold from the integer 0. *)
Definition py_sum (xs : list Fraction) : Fraction := fold_left Qcplus xs 0.

(** *** Floats

    A finite [float] is a binary64 number and is given here by the rational
    it denotes, so that [Fraction.from_float(x)] and [Fraction(x)], which are
    exact, leave it as it is.  Arithmetic on floats is not exact: the sum of
    two floats is their exact sum rounded to the nearest binary64, a tie
    going to the even mantissa.  Sums are taken to stay in the finite range
    of binary64. *)

(** Rounding to the nearest integer, a tie going to the even one. *)
Definition half_even (x : Q) : Z :=
  let f := Qfloor x in
  match Qcompare (x - inject_Z f) (1 # 2) with
  | Lt => f
  | Gt => (f + 1)%Z
  | Eq => if Z.even f then f else (f + 1)%Z
  end.

(** The exponent of the last place of the 53-bit mantissa of a positive
    [x]: 52 below the binary exponent of [x], and -1074 for a subnormal. *)
Definition ulp_exponent (x : Q) : Z :=
  let e := (Z.log2 (Qnum x) - Z.log2 (Zpos (Qden x)) - 52)%Z in
  let e := if Qle_bool (2 ^ 52) (x / 2 ^ e)%Q then e else (e - 1)%Z in
  Z.max e (-1074).

Definition round_positive (x : Q) : Q :=
  let e := ulp_exponent x in
  (inject_Z (half_even (x / 2 ^ e)) * 2 ^ e)%Q.

(** The binary64 number nearest to [x]. *)
Definition binary64 (x : Q) : Q :=
  match Qcompare x 0 with
  | Eq => 0%Q
  | Gt => round_positive x
  | Lt => (- round_positive (- x))%Q
  end.

(** [x + y] for two floats. *)
Definition float_add (x y : Fraction) : Fraction := Q2Qc (binary64 (x + y)).

(** [sum(xs)] of floats: the floats are added from left to right, starting
    from the integer 0, each addition rounding.  (CPython 3.12 and later
    carry a compensation term through the additions of floats, which makes
    the rounding depend less on the order.) *)
Definition float_sum (xs : list Fraction) : Fraction := fold_left float_add xs 0.

(** The float with mantissa [m] and exponent [e], [m * 2 ** e]. *)
Definition float_of (mantissa exponent : Z) : Fraction :=
  Q2Qc (inject_Z mantissa * 2 ^ exponent)%Q.

(** The exceptions the arithmetic of this file can raise. *)
Inductive exn : Set :=
| ZeroDivisionError
| TypeError
| AttributeError.

Inductive result (A : Type) : Type :=
| Ok (a : A)
| Raise (e : exn).

Arguments Ok {A} a.
Arguments Raise {A} e.

Definition bind {A B : Type} (m : result A) (k : A -> result B) : result B :=
  match m with
  | Ok a => k a
  | Raise e => Raise e
  end.

Notation "x <- m ;; k" := (bind m (fun x => k))
  (at level 61, m at next level, right associativity).
Notation "' pat <- m ;; k" := (bind m (fun x => let 'pat := x in k))
  (at level 61, pat pattern, m at next level, right associativity).

(** A list comprehension whose element expression may raise: the first
    failing element aborts the whole comprehension. *)
Fixpoint comprehension {A B : Type} (f : A -> result B) (xs : list A)
  : result (list B) :=
  match xs with
  | [] => Ok []
  | x :: xs' => y <- f x ;; ys <- comprehension f xs' ;; Ok (y :: ys)
  end.

(** [Fraction(numerator, denominator)] with rational arguments: raises
    [ZeroDivisionError] on a zero denominator. *)
Definition Fraction_div (numerator denominator : Fraction) : result Fraction :=
  if Qceqb denominator 0 then Raise ZeroDivisionError
  else Ok (numerator / denominator).

(** ** External collaborators

    [Size] (textual.geometry), [Scalar] (textual.css.scalar) and
    [RenderStyles] (textual.css.styles) are imported by [_resolve.py]; it
    reads only the attributes below. *)

Record Size : Set := mkSize { size_width : Z; size_height : Z }.

(** The part of [Scalar] that the module uses.  [value] is the scalar's
    numeric magnitude, its weight for a fraction scalar: a finite float,
    given by the rational it denotes ([inf] and [nan], on which
    [Fraction.from_float] raises, are outside the type).  The module converts
    a single value with [Fraction.from_float] or [Fraction(...)], which is
    exact, but it adds the values up as floats before it converts the sum
    (lines 51-53 and 188): that sum is [float_sum], not the exact sum.
    [scalar_resolve s size viewport fraction_unit] is
    [s.resolve(size, viewport, fraction_unit)], with [None] for the call that
    leaves the third argument out. *)
Class ScalarLike (Scalar : Type) : Type := {
  is_fraction : Scalar -> bool;
  value : Scalar -> Fraction;
  scalar_resolve : Scalar -> Size -> Size -> option Fraction -> Fraction
}.

(** [resolve_dimension: Literal["width", "height"]]. *)
Inductive Dimension : Set := Width | Height.

Section Resolve.

Context {Scalar : Type} `{ScalarLike Scalar}.

(** The attributes of [RenderStyles] read by [resolve_fraction_unit].  The
    source casts [width] and [height] to [Scalar]. *)
Record RenderStyles : Type := mkStyles {
  width : Scalar;
  height : Scalar;
  min_width : option Scalar;
  max_width : option Scalar;
  min_height : option Scalar;
  max_height : option Scalar;
  overlay : string
}.

(** ** [resolve] *)

(** Lines 41-48: fraction scalars are deferred, the others resolved. *)
Definition classify (size viewport : Size) (dimensions : list Scalar)
  : list (Scalar * option Fraction) :=
  map (fun scalar =>
         if is_fraction scalar then (scalar, None)
         else (scalar, Some (scalar_resolve scalar size viewport None)))
      dimensions.

(** [[scalar.value for scalar, fraction in resolved if fraction is None]] *)
Definition deferred_values (resolved : list (Scalar * option Fraction))
  : list Fraction :=
  flat_map (fun '(scalar, fraction) =>
              match fraction with None => [value scalar] | Some _ => [] end)
           resolved.

(** [[fraction for _, fraction in resolved if fraction is not None]] *)
Definition fixed_lengths (resolved : list (Scalar * option Fraction))
  : list Fraction :=
  flat_map (fun '(_, fraction) =>
              match fraction with None => [] | Some f => [f] end)
           resolved.

(** Lines 65-67: the comprehension keeps every entry, [None] included; the
    [cast] does nothing at run time.  The first later use of a [None] entry
    raises: [sum] (reached when [expand] or [shrink] is set) and the addition
    inside [accumulate] raise [TypeError]; when [accumulate] yields a leading
    [None] unchanged, [None.__floor__] raises [AttributeError]. *)
Fixpoint all_lengths (xs : list (option Fraction)) : option (list Fraction) :=
  match xs with
  | [] => Some []
  | None :: _ => None
  | Some f :: xs' =>
      match all_lengths xs' with
      | Some fs => Some (f :: fs)
      | None => None
      end
  end.

Definition cast_lengths (expand_or_shrink : bool) (xs : list (option Fraction))
  : result (list Fraction) :=
  match all_lengths xs with
  | Some fs => Ok fs
  | None =>
      if expand_or_shrink then Raise TypeError
      else match xs with
           | None :: _ => Raise AttributeError
           | _ => Raise TypeError
           end
  end.

(** Lines 85-94: the single pass over [zip(minimums, resolved_fractions)].
    The list is updated in place at the index just read, so the entries not
    yet visited are the original ones. *)
Fixpoint shrink_loop (total_space : Fraction) (minimums : list Z)
    (resolved_fractions : list Fraction) (used_space excess_space : Fraction)
  : result (list Fraction) :=
  match minimums, resolved_fractions with
  | minimum :: minimums', width :: widths' =>
      share <- Fraction_div width used_space ;;
      let remove_space := py_max share 1 * excess_space in
      let updated_width := py_max (Fraction_of_int minimum) (width - remove_space) in
      let used_space' := used_space - width + updated_width in
      let excess_space' := used_space' - total_space in
      if Qcleb excess_space' 0 then Ok (updated_width :: widths')
      else
        rest <- shrink_loop total_space minimums' widths' used_space' excess_space' ;;
        Ok (updated_width :: rest)
  | _, _ => Ok resolved_fractions
  end.

(** Lines 74-80. *)
Definition expand_step (total_space used_space : Fraction)
    (resolved_fractions : list Fraction) : result (list Fraction) :=
  let remaining_space := total_space - used_space in
  if Qcltb 0 remaining_space then
    comprehension
      (fun width =>
         share <- Fraction_div width used_space ;;
         Ok (width + share * remaining_space))
      resolved_fractions
  else Ok resolved_fractions.

(** Lines 81-103. *)
Definition shrink_step (total_space used_space : Fraction)
    (minimums : option (list Z)) (resolved_fractions : list Fraction)
  : result (list Fraction) :=
  let excess_space := used_space - total_space in
  '(resolved_fractions, used_space, excess_space) <-
     match minimums with
     | Some mins =>
         if Qcltb 0 excess_space then
           shrunk <- shrink_loop total_space mins resolved_fractions
                       used_space excess_space ;;
           let used_space := py_sum shrunk in
           Ok (shrunk, used_space, used_space - total_space)
         else Ok (resolved_fractions, used_space, excess_space)
     | None => Ok (resolved_fractions, used_space, excess_space)
     end ;;
  if Qcltb 0 excess_space then
    comprehension
      (fun width =>
         share <- Fraction_div width used_space ;;
         Ok (width - share * excess_space))
      resolved_fractions
  else Ok resolved_fractions.

(** [itertools.accumulate]: running sums, the first element as it is. *)
Fixpoint accumulate_from (acc : Fraction) (xs : list Fraction) : list Fraction :=
  match xs with
  | [] => []
  | x :: xs' => (acc + x) :: accumulate_from (acc + x) xs'
  end.

Definition accumulate (xs : list Fraction) : list Fraction :=
  match xs with
  | [] => []
  | x :: xs' => x :: accumulate_from x xs'
  end.

(** [xs[::2]] and [xs[1::2]]. *)
Fixpoint even_slice {A : Type} (xs : list A) : list A :=
  match xs with
  | [] => []
  | x :: xs' => x :: match xs' with [] => [] | _ :: xs'' => even_slice xs'' end
  end.

Definition odd_slice {A : Type} (xs : list A) : list A :=
  match xs with
  | [] => []
  | _ :: xs' => even_slice xs'
  end.

(** Lines 105-116. *)
Definition build_results (fraction_gutter : Fraction)
    (resolved_fractions : list Fraction) : list (Z * Z) :=
  let offsets :=
    0%Z :: map floor
             (accumulate
                (flat_map (fun fraction => [fraction; fraction_gutter])
                          resolved_fractions)) in
  map (fun '(offset1, offset2) => (offset1, (offset2 - offset1)%Z))
      (combine (even_slice offsets) (odd_slice offsets)).

(** Lines 50-67: the exact length of every dimension.  [total_fraction] is
    the float sum of the weights, converted; line 61 converts each weight by
    itself. *)
Definition resolve_fractions (size viewport : Size) (dimensions : list Scalar)
    (total total_gutter : Z) (expand_or_shrink : bool) : result (list Fraction) :=
  let resolved := classify size viewport dimensions in
  let total_fraction := float_sum (deferred_values resolved) in
  if truthy total_fraction then
    let consumed := py_sum (fixed_lengths resolved) in
    let remaining :=
      py_max 0 (Fraction_of_int (total - total_gutter) - consumed) in
    fraction_unit <- Fraction_div remaining total_fraction ;;
    Ok (map (fun '(scalar, fraction) =>
               match fraction with
               | None => value scalar * fraction_unit
               | Some f => f
               end)
            resolved)
  else cast_lengths expand_or_shrink (map snd resolved).

(** Lines 71-103, entered when [expand or shrink]. *)
Definition redistribute (total total_gutter : Z) (expand shrink : bool)
    (minimums : option (list Z)) (resolved_fractions : list Fraction)
  : result (list Fraction) :=
  let total_space := Fraction_of_int (total - total_gutter) in
  let used_space := py_sum resolved_fractions in
  resolved_fractions <-
    (if expand then expand_step total_space used_space resolved_fractions
     else Ok resolved_fractions) ;;
  if shrink then shrink_step total_space used_space minimums resolved_fractions
  else Ok resolved_fractions.

Definition resolve (dimensions : list Scalar) (total gutter : Z)
    (size viewport : Size) (expand shrink : bool) (minimums : option (list Z))
  : result (list (Z * Z)) :=
  let total_gutter := (gutter * (Z.of_nat (List.length dimensions) - 1))%Z in
  resolved_fractions <-
    resolve_fractions size viewport dimensions total total_gutter
                      (expand || shrink) ;;
  let fraction_gutter := Fraction_of_int gutter in
  resolved_fractions <-
    (if expand || shrink
     then redistribute total total_gutter expand shrink minimums resolved_fractions
     else Ok resolved_fractions) ;;
  Ok (build_results fraction_gutter resolved_fractions).

(** ** [resolve_fraction_unit] *)

(** An entry of the local list [resolve]: the scalar of the axis with its
    resolved minimum and maximum. *)
Definition item : Type := (Scalar * option Fraction * option Fraction)%type.

(** The variables the [while] loop updates.  [resolved] is the list of
    line 187, one slot per entry of [resolve]. *)
Record loop_state : Type := mkState {
  resolved : list (option Fraction);
  remaining_space : Fraction;
  remaining_fraction : Fraction
}.

(** Lines 146-162; the default [fraction_unit] is [Fraction(1)]. *)
Definition resolve_scalar (size viewport_size : Size)
    (scalar : option Scalar) (fraction_unit : Fraction) : option Fraction :=
  match scalar with
  | None => None
  | Some s => Some (scalar_resolve s size viewport_size (Some fraction_unit))
  end.

(** Lines 164-185. *)
Definition in_flow (styles : RenderStyles) : bool :=
  negb (String.eqb (overlay styles) "screen").

Definition resolve_list (size viewport_size : Size)
    (resolve_dimension : Dimension) (widget_styles : list RenderStyles)
  : list item :=
  match resolve_dimension with
  | Width =>
      map (fun styles =>
             (width styles,
              resolve_scalar size viewport_size (min_width styles) 1,
              resolve_scalar size viewport_size (max_width styles) 1))
          (filter in_flow widget_styles)
  | Height =>
      map (fun styles =>
             (height styles,
              resolve_scalar size viewport_size (min_height styles) 1,
              resolve_scalar size viewport_size (max_height styles) 1))
          (filter in_flow widget_styles)
  end.

(** Lines 197 and 202: the bound an unresolved item is fixed to, if any;
    the minimum is tested first. *)
Definition violated_bound (min_value max_value : option Fraction)
    (resolved_scalar : Fraction) : option Fraction :=
  let above :=
    match max_value with
    | Some mx => if Qcltb mx resolved_scalar then Some mx else None
    | None => None
    end in
  match min_value with
  | Some mn => if Qcltb resolved_scalar mn then Some mn else above
  | None => above
  end.

(** Lines 194-206: the body of the [for] loop for one entry of [resolve];
    [slot] is [resolved[index]] and the boolean is
    [remaining_space_changed].  It returns the new slot with the updated
    variables. *)
Definition loop_body (size viewport_size : Size) (resolve_fraction : Fraction)
    (entry : item) (slot : option Fraction) (space fraction : Fraction)
    (changed : bool) : option Fraction * Fraction * Fraction * bool :=
  let '(scalar, min_value, max_value) := entry in
  match slot with
  | None =>
      let resolved_scalar :=
        scalar_resolve scalar size viewport_size (Some resolve_fraction) in
      match violated_bound min_value max_value resolved_scalar with
      | Some bound => (Some bound, space - bound, fraction - value scalar, true)
      | None => (None, space, fraction, changed)
      end
  | Some _ => (slot, space, fraction, changed)
  end.

(** Lines 193-206: one pass of the [for] loop at the candidate unit
    [resolve_fraction]. *)
Fixpoint for_loop (size viewport_size : Size) (resolve_fraction : Fraction)
    (resolve : list item) (state : loop_state) (changed : bool)
  : loop_state * bool :=
  match resolve, resolved state with
  | entry :: resolve', slot :: resolved' =>
      let '(slot', space, fraction, changed) :=
        loop_body size viewport_size resolve_fraction entry slot
                  (remaining_space state) (remaining_fraction state) changed in
      let '(state', changed) :=
        for_loop size viewport_size resolve_fraction resolve'
                 (mkState resolved' space fraction) changed in
      (mkState (slot' :: resolved state') (remaining_space state')
               (remaining_fraction state'), changed)
  | _, _ => (state, changed)
  end.

(** Lines 190-209.  [fuel] bounds the number of rounds; the result is
    [None] when the loop has not finished within it.  The natural number
    returned counts the rounds that were run. *)
Fixpoint while_loop (fuel : nat) (size viewport_size : Size)
    (resolve : list item) (state : loop_state) : option (loop_state * nat) :=
  if Qcltb 0 (remaining_fraction state) then
    match fuel with
    | O => None
    | S fuel' =>
        let resolve_fraction := remaining_space state / remaining_fraction state in
        let '(state', changed) :=
          for_loop size viewport_size resolve_fraction resolve state false in
        if changed then
          match while_loop fuel' size viewport_size resolve state' with
          | Some (final, rounds) => Some (final, S rounds)
          | None => None
          end
        else Some (state', 1%nat)
    end
  else Some (state, 0%nat).

(** Lines 187-188: the state before the loop.  [remaining_fraction] starts
    as the float sum of the weights, converted; lines 199 and 204 then
    subtract single weights exactly. *)
Definition initial_state (resolve : list item) (remaining_space : Fraction)
  : loop_state :=
  mkState (repeat None (List.length resolve)) remaining_space
          (float_sum (map (fun '(scalar, _, _) => value scalar) resolve)).

(** Lines 187-209: the loop from the initial state, with one unit of fuel
    per entry of [resolve] and one more for a last round that fixes
    nothing. *)

Definition fraction_loop (widget_styles : list RenderStyles)
    (size viewport_size : Size) (remaining_space : Fraction)
    (resolve_dimension : Dimension) : option (loop_state * nat) :=
  let resolve := resolve_list size viewport_size resolve_dimension widget_styles in
  while_loop (S (List.length resolve)) size viewport_size resolve
             (initial_state resolve remaining_space).

(** The divisions of lines 192 and 212 are each under the test
    [remaining_fraction > 0] and cannot raise. *)
Definition resolve_fraction_unit (widget_styles : list RenderStyles)
    (size viewport_size : Size) (remaining_space : Fraction)
    (resolve_dimension : Dimension) : option Fraction :=
  if negb (truthy remaining_space)
     || match widget_styles with [] => true | _ => false end
  then Some 1
  else
    let initial_space := remaining_space in
    match fraction_loop widget_styles size viewport_size remaining_space
                        resolve_dimension with
    | Some (mkState _ remaining_space remaining_fraction, _) =>
        Some (if Qcltb 0 remaining_fraction
              then remaining_space / remaining_fraction
              else initial_space)
    | None => None
    end.

End Resolve.

Arguments RenderStyles Scalar : clear implicits.
Arguments item Scalar : clear implicits.

(** Modelled from the spec: the [Scalar] class is not part of this module.
    Section 3 of the specification describes it as a tagged value with fixed
    cell counts and fraction weights among its cases; a cell count resolves to
    itself whatever the sizes, a fraction weight to weight times the fraction
    unit (section 4.1, step 2).  Only these two cases are used, for concrete
    evaluations. *)
Inductive SpecScalar : Set :=
| CellCount (n : Z)
| FractionWeight (w : Z).

#[global] Instance SpecScalar_like : ScalarLike SpecScalar := {
  is_fraction s := match s with FractionWeight _ => true | CellCount _ => false end;
  value s := match s with
             | FractionWeight w => Fraction_of_int w
             | CellCount n => Fraction_of_int n
             end;
  scalar_resolve s _ _ fraction_unit :=
    match s with
    | CellCount n => Fraction_of_int n
    | FractionWeight w =>
        Fraction_of_int w * match fraction_unit with Some u => u | None => 1 end
    end
}.

(** Concrete inputs: a container of 80 by 24 cells and four widget styles. *)
Definition container : Size := mkSize 80 24.

Definition bounded_below : RenderStyles SpecScalar :=
  mkStyles (FractionWeight 1) (FractionWeight 1)
           (Some (CellCount 20)) None None None "".

Definition bounded_above : RenderStyles SpecScalar :=
  mkStyles (FractionWeight 2) (FractionWeight 1)
           None (Some (CellCount 5)) None None "".

Definition unbounded : RenderStyles SpecScalar :=
  mkStyles (FractionWeight 1) (FractionWeight 1) None None None None "".

Definition overlaid : RenderStyles SpecScalar :=
  mkStyles (FractionWeight 1) (FractionWeight 1)
           (Some (CellCount 20)) None None None "screen".

(** Modelled from the spec: the same two cases of [Scalar] with a weight
    that need not be a whole number.  The weight is a float, given by its
    mantissa and exponent: [Weight 3602879701896397 (-55)] is the float
    that Python writes 0.1, the weight of the style [0.1fr]. *)
Inductive FloatScalar : Set :=
| Cells (n : Z)
| Weight (mantissa exponent : Z).

#[global] Instance FloatScalar_like : ScalarLike FloatScalar | 10 := {
  is_fraction s := match s with Weight _ _ => true | Cells _ => false end;
  value s := match s with
             | Weight mantissa exponent => float_of mantissa exponent
             | Cells n => Fraction_of_int n
             end;
  scalar_resolve s _ _ fraction_unit :=
    match s with
    | Cells n => Fraction_of_int n
    | Weight mantissa exponent =>
        float_of mantissa exponent
        * match fraction_unit with Some u => u | None => 1 end
    end
}.

(** The floats 0.1, 0.2 and 0.3 as weights. *)
Definition tenth : FloatScalar := Weight 3602879701896397 (-55).
Definition fifth : FloatScalar := Weight 3602879701896397 (-54).
Definition three_tenths : FloatScalar := Weight 5404319552844595 (-54).

(** A widget style of the given weight on both axes, with a minimum and a
    maximum in cells. *)
Definition weighted (weight : FloatScalar) (minimum maximum : option Z)
  : RenderStyles FloatScalar :=
  mkStyles weight weight
           (option_map Cells minimum) (option_map Cells maximum)
           (option_map Cells minimum) (option_map Cells maximum) "".

(** ** [resolve_box_models] *)

(** [int(fraction)]: truncation towards zero. *)
Definition py_int (q : Fraction) : Z := Z.quot (Qnum q) (Zpos (Qden q)).

(** The part of [Widget] (textual.widget) and of [BoxModel]
    (textual.box_model) that [resolve_box_models] uses:
    [widget.styles], [widget.styles.margin.totals],
    [widget._get_box_model(size, viewport, width_fraction, height_fraction,
    greedy=greedy)], [box_model.width] and [box_model.height].  A
    [RenderStyles] carries its [width] and [height] as scalars, so the tests
    [styles.width is not None] and [styles.height is not None] of lines 297
    and 324 hold of every value of the type. *)
Class WidgetLike (Scalar Widget BoxModel : Type) : Type := {
  Widget_styles : Widget -> RenderStyles Scalar;
  Widget_margin_totals : Widget -> Z * Z;
  Widget_get_box_model :
    Widget -> Size -> Size -> Fraction -> Fraction -> bool -> BoxModel;
  BoxModel_width : BoxModel -> Fraction;
  BoxModel_height : BoxModel -> Fraction
}.

Section BoxModels.

Context {Scalar : Type} `{ScalarLike Scalar}.
Context {Widget BoxModel : Type} `{WidgetLike Scalar Widget BoxModel}.

(** [size - margin] of [Size], defined in textual.geometry. *)
Variable Size_sub : Size -> Size -> Size.

(** Line 253: [_dimension is not None and _dimension.is_fraction]. *)
Definition deferred (dimension : option Scalar) : bool :=
  match dimension with
  | Some scalar => is_fraction scalar
  | None => false
  end.

(** Lines 254-268: the box model of a widget that is not deferred, with the
    container less the widget's own margins, not below zero, as the space
    for fractions. *)
Definition own_box_model (size viewport_size : Size) (greedy : bool)
    (widget : Widget) (margins : Z * Z) : BoxModel :=
  let '(margin_width, margin_height) := margins in
  let fraction_width := Fraction_of_int (size_width size) in
  let fraction_height := Fraction_of_int (size_height size) in
  let _width := fraction_width - Fraction_of_int margin_width in
  let _height := fraction_height - Fraction_of_int margin_height in
  Widget_get_box_model widget size viewport_size
    (if Qcltb _width 0 then 0 else _width)
    (if Qcltb _height 0 then 0 else _height)
    greedy.

(** Lines 247-273: [None] for the deferred widgets, over
    [zip(dimensions, widgets, margins)]. *)
Definition fixed_box_models (dimensions : list (option Scalar))
    (widgets : list Widget) (size viewport_size : Size) (greedy : bool)
  : list (option BoxModel) :=
  let margins := map Widget_margin_totals widgets in
  map (fun '(_dimension, (widget, widget_margins)) =>
         if deferred _dimension then None
         else Some (own_box_model size viewport_size greedy widget widget_margins))
      (combine dimensions (combine widgets margins)).

(** Line 275: [None not in box_models]; when it holds the list is returned
    as it is. *)
Fixpoint all_box_models (box_models : list (option BoxModel))
  : option (list BoxModel) :=
  match box_models with
  | [] => Some []
  | None :: _ => None
  | Some box_model :: rest =>
      match all_box_models rest with
      | Some models => Some (box_model :: models)
      | None => None
      end
  end.

(** Lines 284-288 and 311-315: the lengths, along the dimension, of the box
    models already there whose widget does not overlay the screen. *)
Definition flowing_lengths (length_of : BoxModel -> Fraction)
    (widgets : list Widget) (box_models : list (option BoxModel))
  : list Fraction :=
  flat_map (fun '(widget, box_model) =>
              match box_model with
              | Some model =>
                  if in_flow (Widget_styles widget) then [length_of model] else []
              | None => []
              end)
           (combine widgets box_models).

(** Lines 336-342: [box_model or widget._get_box_model(...)]; a box model
    that is there counts as true. *)
Definition complete_box_models (size viewport_size : Size)
    (width_fraction height_fraction : Fraction) (greedy : bool)
    (widgets : list Widget) (box_models : list (option BoxModel))
  : list BoxModel :=
  map (fun '(widget, box_model) =>
         match box_model with
         | Some model => model
         | None =>
             Widget_get_box_model widget size viewport_size
                                  width_fraction height_fraction greedy
         end)
      (combine widgets box_models).

(** Lines 218-344.  The result is [None] only if the loop of
    [resolve_fraction_unit] runs out of fuel. *)
Definition resolve_box_models (dimensions : list (option Scalar))
    (widgets : list Widget) (size viewport_size margin : Size)
    (resolve_dimension : Dimension) (greedy : bool) : option (list BoxModel) :=
  let margin_width := size_width margin in
  let margin_height := size_height margin in
  let margin_size := Size_sub size margin in
  let box_models :=
    fixed_box_models dimensions widgets size viewport_size greedy in
  match all_box_models box_models with
  | Some models => Some models
  | None =>
      let widget_styles := map Widget_styles widgets in
      match resolve_dimension with
      | Width =>
          let total_remaining :=
            py_int (py_sum (flowing_lengths BoxModel_width widgets box_models)) in
          let remaining_space :=
            Z.max 0 (size_width size - total_remaining - margin_width) in
          match resolve_fraction_unit
                  (filter (fun styles => is_fraction (width styles) && in_flow styles)
                          widget_styles)
                  size viewport_size (Fraction_of_int remaining_space) Width with
          | Some fraction_unit =>
              let width_fraction := fraction_unit in
              let height_fraction := Fraction_of_int (size_height margin_size) in
              Some (complete_box_models size viewport_size width_fraction
                                        height_fraction greedy widgets box_models)
          | None => None
          end
      | Height =>
          let total_remaining :=
            py_int (py_sum (flowing_lengths BoxModel_height widgets box_models)) in
          let remaining_space :=
            Z.max 0 (size_height size - total_remaining - margin_height) in
          match resolve_fraction_unit
                  (filter (fun styles => is_fraction (height styles) && in_flow styles)
                          widget_styles)
                  size viewport_size (Fraction_of_int remaining_space) Height with
          | Some fraction_unit =>
              let width_fraction := Fraction_of_int (size_width margin_size) in
              let height_fraction := fraction_unit in
              Some (complete_box_models size viewport_size width_fraction
                                        height_fraction greedy widgets box_models)
          | None => None
          end
      end
  end.

End BoxModels.

(** Modelled from the spec: widgets and box models are not part of this
    module.  Section 3 of the specification describes a box model as
    resolved content width and height plus margin, and section 4.3 has each
    item size itself from its own style with the fraction unit of each
    dimension handed to it.  A widget is taken as its styles with its margin
    totals and a box model as its content width and height; only used for
    concrete evaluations. *)
Record SpecWidget : Type := mkWidget {
  spec_styles : RenderStyles SpecScalar;
  spec_margins : Z * Z
}.

#[global] Instance SpecWidget_like
  : WidgetLike SpecScalar SpecWidget (Fraction * Fraction) := {
  Widget_styles := spec_styles;
  Widget_margin_totals := spec_margins;
  Widget_get_box_model widget size viewport width_fraction height_fraction _ :=
    (scalar_resolve (width (spec_styles widget)) size viewport (Some width_fraction),
     scalar_resolve (height (spec_styles widget)) size viewport (Some height_fraction));
  BoxModel_width := fst;
  BoxModel_height := snd
}.

(** [Size.__sub__] as the instance for concrete evaluations: componentwise,
    not below zero. *)
Definition spec_size_sub (size margin : Size) : Size :=
  mkSize (Z.max 0 (size_width size - size_width margin))
         (Z.max 0 (size_height size - size_height margin)).

Definition fixed_ten : SpecWidget :=
  mkWidget (mkStyles (CellCount 10) (CellCount 1) None None None None "") (0, 0)%Z.

Definition one_fraction : SpecWidget :=
  mkWidget (mkStyles (FractionWeight 1) (CellCount 1) None None None None "") (0, 0)%Z.

(** ** Notions used to state the properties *)

(** Sum of a list of fractions, as a right fold. *)
Definition qsum (xs : list Fraction) : Fraction := fold_right Qcplus 0 xs.

(** The floats [xs] add up without rounding: their float sum is their exact
    sum.  Whole numbers of moderate size do; 0.1, 0.1 and 0.1 do not. *)
Definition sums_exactly (xs : list Fraction) : Prop := float_sum xs = qsum xs.

Section Pool.

Context {Scalar : Type} `{ScalarLike Scalar}.
Variables size viewport_size : Size.

(** An entry of [resolve] paired with its slot of [resolved]. *)
Definition paired : Type := (item Scalar * option Fraction)%type.

Definition weight_of (e : paired) : Fraction :=
  let '((scalar, _, _), _) := e in value scalar.

(** The bound an entry is fixed to in a round run at the unit [u], if the
    entry is unresolved and crosses one of its bounds. *)
Definition clamp_of (u : Fraction) (e : paired) : option Fraction :=
  let '((scalar, min_value, max_value), slot) := e in
  match slot with
  | None =>
      violated_bound min_value max_value
                     (scalar_resolve scalar size viewport_size (Some u))
  | Some _ => None
  end.

Definition is_clamped (u : Fraction) (e : paired) : bool :=
  match clamp_of u e with Some _ => true | None => false end.

Definition slot_after (u : Fraction) (e : paired) : option Fraction :=
  match snd e with
  | None => clamp_of u e
  | Some b => Some b
  end.

Definition repair (u : Fraction) (e : paired) : paired := (fst e, slot_after u e).

Definition space_taken (u : Fraction) (e : paired) : Fraction :=
  match clamp_of u e with Some bound => bound | None => 0 end.

Definition weight_taken (u : Fraction) (e : paired) : Fraction :=
  match clamp_of u e with Some _ => weight_of e | None => 0 end.

(** Total weight of the entries that are still unresolved. *)
Definition unresolved_weight (z : list paired) : Fraction :=
  qsum (map (fun e => match snd e with None => weight_of e | Some _ => 0 end) z).

(** Total space of the slots that have been fixed. *)
Definition fixed_space (slots : list (option Fraction)) : Fraction :=
  qsum (map (fun slot => match slot with Some bound => bound | None => 0 end) slots).

(** Number of empty slots. *)
Definition unresolved_count (slots : list (option Fraction)) : nat :=
  List.length (filter (fun slot => match slot with None => true | Some _ => false end)
                      slots).

(** The weights of the entries, in order: the floats line 188 adds up. *)
Definition item_weights (items : list (item Scalar)) : list Fraction :=
  map (fun '(scalar, _, _) => value scalar) items.

(** What [remaining_fraction] holds beyond the weight of the unresolved
    entries. *)
Definition pool_residue (items : list (item Scalar)) (state : loop_state)
  : Fraction :=
  remaining_fraction state - unresolved_weight (combine items (resolved state)).

(** The exact lengths of a list of scalars none of which is a fraction. *)
Definition exact_lengths (dimensions : list Scalar) : list Fraction :=
  map (fun scalar => scalar_resolve scalar size viewport_size None) dimensions.

End Pool.

(** The larger of two fractions. *)
Definition Qc_max (x y : Fraction) : Fraction := if Qcleb x y then y else x.

(** The shrink pass over the minimums in the words of section 4.1, step 4 of
    the specification: items are visited once in order; for each,
    removal = max(length / used_space, 1) x excess and the new length is
    max(minimum, length - removal); used_space and excess are updated after
    each item, and the pass stops once excess <= 0.
    [shrink_pass total_space minimums lengths used excess lengths'] relates
    the lengths before the pass to those after it. *)
Inductive shrink_pass (total_space : Fraction)
  : list Z -> list Fraction -> Fraction -> Fraction -> list Fraction -> Prop :=
| pass_no_minimum (lengths : list Fraction) (used excess : Fraction) :
    shrink_pass total_space [] lengths used excess lengths
| pass_no_length (minimums : list Z) (used excess : Fraction) :
    shrink_pass total_space minimums [] used excess []
| pass_stop (minimum : Z) (minimums : list Z) (length : Fraction)
    (lengths : list Fraction) (used excess removal new_length : Fraction) :
    removal = Qc_max (length / used) 1 * excess ->
    new_length = Qc_max (Fraction_of_int minimum) (length - removal) ->
    used - length + new_length - total_space <= 0 ->
    shrink_pass total_space (minimum :: minimums) (length :: lengths) used excess
                (new_length :: lengths)
| pass_next (minimum : Z) (minimums : list Z) (length : Fraction)
    (lengths lengths' : list Fraction) (used excess removal new_length : Fraction) :
    removal = Qc_max (length / used) 1 * excess ->
    new_length = Qc_max (Fraction_of_int minimum) (length - removal) ->
    0 < used - length + new_length - total_space ->
    shrink_pass total_space minimums lengths (used - length + new_length)
                (used - length + new_length - total_space) lengths' ->
    shrink_pass total_space (minimum :: minimums) (length :: lengths) used excess
                (new_length :: lengths').

(** The cells laid out from the exact position [start]: each spans from the
    floor of its exact start to the floor of its exact end, and the next one
    starts a gutter further. *)
Fixpoint spans (fraction_gutter start : Fraction) (lengths : list Fraction)
  : list (Z * Z) :=
  match lengths with
  | [] => []
  | length :: lengths' =>
      (floor start, (floor (start + length) - floor start)%Z)
      :: spans fraction_gutter (start + length + fraction_gutter) lengths'
  end.

(** Sum of a list of integers. *)
Definition zsum (xs : list Z) : Z := fold_right Z.add 0%Z xs.

(** A resolved value lies within the optional bounds. *)
Definition within_bounds (min_value max_value : option Fraction)
    (resolved_scalar : Fraction) : Prop :=
  match min_value with Some mn => mn <= resolved_scalar | None => True end /\
  match max_value with Some mx => resolved_scalar <= mx | None => True end.

Section Widths.

Context {Scalar : Type} `{ScalarLike Scalar}.

(** The exact widths [resolve] hands to the boundary computation: lines
    41-103 of [resolve], before the offsets are built. *)
Definition resolved_widths (dimensions : list Scalar) (total gutter : Z)
    (size viewport : Size) (expand shrink : bool) (minimums : option (list Z))
  : result (list Fraction) :=
  let total_gutter := (gutter * (Z.of_nat (List.length dimensions) - 1))%Z in
  resolved_fractions <-
    resolve_fractions size viewport dimensions total total_gutter
                      (expand || shrink) ;;
  if expand || shrink
  then redistribute total total_gutter expand shrink minimums resolved_fractions
  else Ok resolved_fractions.

(** The weights of the fraction scalars of a list, in order. *)
Definition fraction_weights (dimensions : list Scalar) : list Fraction :=
  map value (filter is_fraction dimensions).

(** The exact lengths of the scalars of a list that are not fractions. *)
Definition fixed_parts (size viewport : Size) (dimensions : list Scalar)
  : list Fraction :=
  map (fun scalar => scalar_resolve scalar size viewport None)
      (filter (fun scalar => negb (is_fraction scalar)) dimensions).

(** The scalar and the bounds [resolve_fraction_unit] reads from a widget
    style for a dimension. *)
Definition axis_scalar (resolve_dimension : Dimension)
    (styles : RenderStyles Scalar) : Scalar :=
  match resolve_dimension with Width => width styles | Height => height styles end.

Definition axis_minimum (resolve_dimension : Dimension)
    (styles : RenderStyles Scalar) : option Scalar :=
  match resolve_dimension with
  | Width => min_width styles
  | Height => min_height styles
  end.

Definition axis_maximum (resolve_dimension : Dimension)
    (styles : RenderStyles Scalar) : option Scalar :=
  match resolve_dimension with
  | Width => max_width styles
  | Height => max_height styles
  end.

(** Every slot that is fixed holds one of the bounds of its entry. *)
Definition fixed_to_bounds (items : list (item Scalar))
    (slots : list (option Fraction)) : Prop :=
  Forall (fun e : item Scalar * option Fraction =>
            let '((_, min_value, max_value), slot) := e in
            match slot with
            | None => True
            | Some bound => min_value = Some bound \/ max_value = Some bound
            end)
         (combine items slots).

End Widths.

Section BoxNotions.

Context {Scalar : Type} `{ScalarLike Scalar}.
Context {Widget BoxModel : Type} `{WidgetLike Scalar Widget BoxModel}.

(** The remaining space of lines 282-292 and 309-319. *)
Definition remaining_for (resolve_dimension : Dimension)
    (dimensions : list (option Scalar)) (widgets : list Widget)
    (size viewport_size margin : Size) (greedy : bool) : Z :=
  let box_models := fixed_box_models dimensions widgets size viewport_size greedy in
  match resolve_dimension with
  | Width =>
      Z.max 0 (size_width size
               - py_int (py_sum (flowing_lengths BoxModel_width widgets box_models))
               - size_width margin)
  | Height =>
      Z.max 0 (size_height size
               - py_int (py_sum (flowing_lengths BoxModel_height widgets box_models))
               - size_height margin)
  end.

(** The styles handed to [resolve_fraction_unit], lines 294-300 and
    321-327. *)
Definition fraction_styles (resolve_dimension : Dimension)
    (widgets : list Widget) : list (RenderStyles Scalar) :=
  filter (fun styles =>
            is_fraction (axis_scalar resolve_dimension styles) && in_flow styles)
         (map Widget_styles widgets).

(** [width_fraction] and [height_fraction] of lines 306-307 and 333-334. *)
Definition fractions_for (resolve_dimension : Dimension) (fraction_unit : Fraction)
    (margin_size : Size) : Fraction * Fraction :=
  match resolve_dimension with
  | Width => (fraction_unit, Fraction_of_int (size_height margin_size))
  | Height => (Fraction_of_int (size_width margin_size), fraction_unit)
  end.

(** The box model of one widget of the result: sized with the fractions of
    the call when its dimension is a fraction, otherwise on its own. *)
Definition placed (size viewport_size : Size) (greedy : bool)
    (fractions : Fraction * Fraction)
    (entry : option Scalar * (Widget * (Z * Z))) : BoxModel :=
  let '(dimension, (widget, margins)) := entry in
  if deferred dimension
  then Widget_get_box_model widget size viewport_size
                            (fst fractions) (snd fractions) greedy
  else own_box_model size viewport_size greedy widget margins.

End BoxNotions.

(** * Properties *)

(** ** Arithmetic of [Fraction] *)

Lemma Qceqb_true (x y : Qc) : Qceqb x y = true <-> x = y.
Proof.
  unfold Qceqb. rewrite Qeq_bool_iff. split.
  - apply Qc_is_canon.
  - intros ->. reflexivity.
Qed.

Lemma Qceqb_false (x y : Qc) : Qceqb x y = false <-> x <> y.
Proof.
  rewrite <- Qceqb_true. destruct (Qceqb x y); split; congruence.
Qed.

Lemma Qcltb_true (x y : Qc) : Qcltb x y = true <-> x < y.
Proof.
  unfold Qcltb. rewrite Qclt_alt. destruct (x ?= y); split; congruence.
Qed.

Lemma Qcltb_false (x y : Qc) : Qcltb x y = false <-> y <= x.
Proof.
  unfold Qcltb. rewrite Qcle_alt.
  change (y ?= x) with (Qcompare y x). change (x ?= y) with (Qcompare x y).
  rewrite <- (Qcompare_antisym x y).
  destruct (Qcompare x y); cbn; split; congruence.
Qed.

Lemma Qcleb_true (x y : Qc) : Qcleb x y = true <-> x <= y.
Proof.
  unfold Qcleb. rewrite Qcle_alt. destruct (x ?= y); split; congruence.
Qed.

Lemma Qcleb_false (x y : Qc) : Qcleb x y = false <-> y < x.
Proof.
  unfold Qcleb. rewrite Qclt_alt.
  change (y ?= x) with (Qcompare y x). change (x ?= y) with (Qcompare x y).
  rewrite <- (Qcompare_antisym x y).
  destruct (Qcompare x y); cbn; split; congruence.
Qed.

Lemma truthy_true (q : Fraction) : truthy q = true <-> q <> 0.
Proof.
  unfold truthy. rewrite negb_true_iff. apply Qceqb_false.
Qed.

(** Moving an order statement on [Qc] to [Q], where [lra] works. *)
Lemma this_plus (x y : Qc) : (this (x + y) == this x + this y)%Q.
Proof. apply Qred_correct. Qed.

Lemma this_mult (x y : Qc) : (this (x * y) == this x * this y)%Q.
Proof. apply Qred_correct. Qed.

Lemma this_opp (x : Qc) : (this (- x) == - this x)%Q.
Proof. apply Qred_correct. Qed.

Lemma this_minus (x y : Qc) : (this (x - y) == this x - this y)%Q.
Proof.
  unfold Qcminus. rewrite this_plus, this_opp. reflexivity.
Qed.

Lemma this_of_int (n : Z) : (this (Fraction_of_int n) == inject_Z n)%Q.
Proof. apply Qred_correct. Qed.

Lemma this_Q2Qc (q : Q) : (this (Q2Qc q) == q)%Q.
Proof. apply Qred_correct. Qed.

Ltac to_Q :=
  unfold Qclt, Qcle in *;
  repeat match goal with
         | H : @eq Qc ?x ?y |- _ =>
             apply (f_equal this) in H
         end;
  repeat first
    [ rewrite this_minus in * | rewrite this_plus in * | rewrite this_mult in *
    | rewrite this_opp in * | rewrite this_of_int in * | rewrite this_Q2Qc in * ].

(** ** The sum of floats *)

Lemma half_even_nonneg (x : Q) : (0 <= x)%Q -> (0 <= half_even x)%Z.
Proof.
  intros Hx. unfold half_even.
  assert (Hf : (0 <= Qfloor x)%Z).
  { change 0%Z with (Qfloor 0). apply Qfloor_resp_le. exact Hx. }
  destruct (Qcompare _ _); [destruct (Z.even _)|..]; lia.
Qed.

Lemma round_positive_nonneg (x : Q) : (0 <= x)%Q -> (0 <= round_positive x)%Q.
Proof.
  intros Hx. unfold round_positive.
  assert (Hpow : (0 < 2 ^ ulp_exponent x)%Q) by (apply Qpower_0_lt; reflexivity).
  apply Qmult_le_0_compat; [|apply Qlt_le_weak; exact Hpow].
  change 0%Q with (inject_Z 0). rewrite <- Zle_Qle. apply half_even_nonneg.
  apply Qle_shift_div_l; [exact Hpow|]. rewrite Qmult_0_l. exact Hx.
Qed.

Lemma binary64_nonneg (x : Q) : (0 <= x)%Q -> (0 <= binary64 x)%Q.
Proof.
  intros Hx. unfold binary64. destruct (Qcompare x 0) eqn:Hc.
  - apply Qle_refl.
  - exfalso. apply Qlt_alt in Hc. lra.
  - apply round_positive_nonneg. exact Hx.
Qed.

(** The sum of two floats that are not negative is not negative. *)
Lemma float_add_nonneg (x y : Fraction) : 0 <= x -> 0 <= y -> 0 <= float_add x y.
Proof.
  intros Hx Hy. unfold float_add, Qcle.
  apply Qle_trans with (binary64 (x + y)).
  - apply binary64_nonneg. revert Hx Hy. to_Q. intros Hx Hy. lra.
  - rewrite (this_Q2Qc (binary64 (x + y))). apply Qle_refl.
Qed.

Lemma float_sum_nonneg (xs : list Fraction) :
  Forall (fun x => 0 <= x) xs -> 0 <= float_sum xs.
Proof.
  intros Hxs. unfold float_sum.
  assert (Hfrom : forall acc, 0 <= acc -> 0 <= fold_left float_add xs acc).
  { induction Hxs as [|x xs Hx _ IH]; intros acc Hacc; cbn [fold_left].
    - exact Hacc.
    - apply IH, float_add_nonneg; assumption. }
  apply Hfrom, Qcle_refl.
Qed.


(** ** The fraction-unit loop *)

Lemma qsum_py_sum_from (xs : list Fraction) (acc : Fraction) :
  fold_left Qcplus xs acc = acc + qsum xs.
Proof.
  revert acc. induction xs as [|x xs IH]; intros acc; cbn [fold_left qsum fold_right].
  - ring.
  - rewrite IH. fold (qsum xs). ring.
Qed.

Lemma py_sum_qsum (xs : list Fraction) : py_sum xs = qsum xs.
Proof.
  unfold py_sum. rewrite qsum_py_sum_from. ring.
Qed.

Lemma qsum_cons (x : Fraction) (xs : list Fraction) : qsum (x :: xs) = x + qsum xs.
Proof. reflexivity. Qed.

Lemma qsum_permutation (xs ys : list Fraction) :
  Permutation xs ys -> qsum xs = qsum ys.
Proof.
  induction 1 as [|x xs ys _ IH|x y xs|xs ys zs _ IH1 _ IH2].
  - reflexivity.
  - rewrite !qsum_cons, IH. reflexivity.
  - rewrite !qsum_cons. ring.
  - congruence.
Qed.

Lemma Permutation_filter_keep {A : Type} (keep : A -> bool) (xs ys : list A) :
  Permutation xs ys -> Permutation (filter keep xs) (filter keep ys).
Proof.
  induction 1 as [|x xs ys _ IH|x y xs|xs ys zs _ IH1 _ IH2]; cbn [filter].
  - constructor.
  - destruct (keep x); [constructor|]; exact IH.
  - destruct (keep x), (keep y); try apply Permutation_refl. constructor.
  - eapply Permutation_trans; eassumption.
Qed.

Lemma existsb_permutation {A : Type} (test : A -> bool) (xs ys : list A) :
  Permutation xs ys -> existsb test xs = existsb test ys.
Proof.
  induction 1 as [|x xs ys _ IH|x y xs|xs ys zs _ IH1 _ IH2]; cbn [existsb].
  - reflexivity.
  - rewrite IH. reflexivity.
  - destruct (test x), (test y); reflexivity.
  - congruence.
Qed.

Section PoolFacts.

Context {Scalar : Type} `{ScalarLike Scalar}.
Variables size viewport_size : Size.

Local Abbreviation for_loop' := (for_loop size viewport_size).
Local Abbreviation clamp_of' := (clamp_of size viewport_size).
Local Abbreviation slot_after' := (slot_after size viewport_size).
Local Abbreviation repair' := (repair size viewport_size).
Local Abbreviation space_taken' := (space_taken size viewport_size).
Local Abbreviation weight_taken' := (weight_taken size viewport_size).
Local Abbreviation is_clamped' := (is_clamped size viewport_size).

(** One pass of the [for] loop in closed form: every slot is decided from
    the candidate unit alone, and the pool loses the bounds and weights of
    the entries fixed in the pass. *)
Lemma for_loop_closed (u : Fraction) (items : list (item Scalar)) :
  forall (slots : list (option Fraction)) (space fraction : Fraction) (changed : bool),
    List.length items = List.length slots ->
    for_loop' u items (mkState slots space fraction) changed =
    (mkState (map (slot_after' u) (combine items slots))
             (space - qsum (map (space_taken' u) (combine items slots)))
             (fraction - qsum (map (weight_taken' u) (combine items slots))),
     changed || existsb (is_clamped' u) (combine items slots)).
Proof.
  induction items as [|[[scalar min_value] max_value] items IH];
    intros [|slot slots] space fraction changed Hlen; try discriminate.
  - cbn. rewrite orb_false_r. f_equal. f_equal; ring.
  - injection Hlen as Hlen.
    cbn [for_loop resolved remaining_space remaining_fraction loop_body combine
         map existsb].
    unfold slot_after at 1, space_taken at 1, weight_taken at 1, is_clamped at 1.
    cbn [snd clamp_of weight_of].
    destruct slot as [b|].
    + rewrite IH by assumption.
      cbn [resolved remaining_space remaining_fraction].
      rewrite !qsum_cons. f_equal. f_equal; ring.
    + destruct (violated_bound min_value max_value _) as [bound|].
      * rewrite IH by assumption.
        cbn [resolved remaining_space remaining_fraction].
        rewrite !qsum_cons, orb_true_r. cbn [orb]. f_equal. f_equal; ring.
      * rewrite IH by assumption.
        cbn [resolved remaining_space remaining_fraction].
        rewrite !qsum_cons. f_equal. f_equal; ring.
Qed.

Lemma combine_slot_after (u : Fraction) (items : list (item Scalar)) :
  forall slots : list (option Fraction),
    combine items (map (slot_after' u) (combine items slots)) =
    map (repair' u) (combine items slots).
Proof.
  induction items as [|entry items IH]; intros [|slot slots]; cbn [combine map];
    try reflexivity.
  rewrite IH. reflexivity.
Qed.

Lemma length_slot_after (u : Fraction) (items : list (item Scalar))
    (slots : list (option Fraction)) :
  List.length items = List.length slots ->
  List.length (map (slot_after' u) (combine items slots)) = List.length items.
Proof.
  intros Hlen. rewrite length_map. unfold paired.
  rewrite length_combine. lia.
Qed.

Lemma unresolved_weight_repair (u : Fraction) (z : list paired) :
  unresolved_weight (map (repair' u) z) =
  unresolved_weight z - qsum (map (weight_taken' u) z).
Proof.
  unfold unresolved_weight.
  induction z as [|[[[scalar min_value] max_value] slot] z IH]; cbn [map].
  - cbn. ring.
  - rewrite !qsum_cons, IH.
    unfold repair, slot_after, weight_taken. cbn [fst snd clamp_of weight_of].
    destruct slot as [b|]; [ring|].
    destruct (violated_bound _ _ _); ring.
Qed.

Lemma unresolved_count_cons (slot : option Fraction) (slots : list (option Fraction)) :
  unresolved_count (slot :: slots) =
  ((match slot with None => 1 | Some _ => 0 end) + unresolved_count slots)%nat.
Proof.
  unfold unresolved_count. cbn [filter]. destruct slot; reflexivity.
Qed.

Lemma unresolved_count_after (u : Fraction) (items : list (item Scalar)) :
  forall slots : list (option Fraction),
    List.length items = List.length slots ->
    (unresolved_count (map (slot_after' u) (combine items slots))
     <= unresolved_count slots)%nat /\
    (existsb (is_clamped' u) (combine items slots) = true ->
     (unresolved_count (map (slot_after' u) (combine items slots))
      < unresolved_count slots)%nat).
Proof.
  induction items as [|[[scalar min_value] max_value] items IH];
    intros [|slot slots] Hlen; try discriminate.
  - cbn. split; [lia | discriminate].
  - injection Hlen as Hlen. destruct (IH slots Hlen) as [Hle Hlt].
    cbn [combine map existsb]. rewrite !unresolved_count_cons.
    unfold slot_after at 1 3, is_clamped at 1. cbn [snd clamp_of].
    destruct slot as [b|].
    + cbn [orb]. split; [lia | intros Hc; specialize (Hlt Hc); lia].
    + destruct (violated_bound _ _ _); cbn [orb].
      * split; intros; lia.
      * split; [lia | intros Hc; specialize (Hlt Hc); lia].
Qed.

Lemma unresolved_weight_none (items : list (item Scalar)) :
  forall slots : list (option Fraction),
    List.length items = List.length slots ->
    unresolved_count slots = 0%nat ->
    unresolved_weight (combine items slots) = 0.
Proof.
  unfold unresolved_weight.
  induction items as [|entry items IH]; intros [|slot slots] Hlen Hcount;
    try discriminate; [reflexivity|].
  injection Hlen as Hlen. rewrite unresolved_count_cons in Hcount.
  destruct slot as [b|]; [|discriminate].
  cbn [combine map snd]. rewrite qsum_cons, IH by assumption. ring.
Qed.

(** The loop finishes within one round more than there are unresolved
    entries, and within as many rounds as there are when the pool holds
    their weight and nothing else; the residue of the pool does not change. *)
Lemma while_loop_total (items : list (item Scalar)) :
  forall (fuel : nat) (state : loop_state),
    List.length items = List.length (resolved state) ->
    (unresolved_count (resolved state) < fuel)%nat ->
    exists (final : loop_state) (rounds : nat),
      while_loop fuel size viewport_size items state = Some (final, rounds) /\
      (rounds <= S (unresolved_count (resolved state)))%nat /\
      (pool_residue items state = 0 ->
       (rounds <= unresolved_count (resolved state))%nat) /\
      List.length items = List.length (resolved final) /\
      pool_residue items final = pool_residue items state.
Proof.
  unfold pool_residue.
  induction fuel as [|fuel IH]; intros [slots space fraction] Hlen Hfuel;
    cbn [resolved remaining_space remaining_fraction] in *; [lia|].
  cbn [while_loop remaining_fraction remaining_space].
  destruct (Qcltb 0 fraction) eqn:Hpos.
  - rewrite for_loop_closed by assumption. cbn [orb].
    destruct (unresolved_count_after (space / fraction) items slots Hlen)
      as [Hle Hlt].
    set (slots' := map (slot_after' (space / fraction)) (combine items slots)) in *.
    set (fraction' := fraction - qsum (map (weight_taken' (space / fraction))
                                           (combine items slots))).
    assert (Hlen' : List.length items = List.length slots').
    { symmetry. apply length_slot_after. assumption. }
    assert (Hres : fraction' - unresolved_weight (combine items slots')
                   = fraction - unresolved_weight (combine items slots)).
    { unfold fraction', slots'.
      rewrite combine_slot_after, unresolved_weight_repair. ring. }
    destruct (existsb _ _) eqn:Hchanged.
    + specialize (Hlt eq_refl).
      destruct (IH (mkState slots' (space - qsum (map (space_taken' (space / fraction))
                                                     (combine items slots)))
                            fraction') Hlen')
        as (final & rounds & Hrun & Hrounds & Hexact & Hfinal & Hkept).
      { cbn [resolved]. lia. }
      rewrite Hrun. exists final, (S rounds).
      cbn [resolved remaining_fraction] in *.
      split; [reflexivity|]. split; [lia|]. split; [|split; [exact Hfinal|]].
      * intros Hzero. rewrite Hres in Hexact. specialize (Hexact Hzero). lia.
      * rewrite Hkept. exact Hres.
    + eexists _, 1%nat. cbn [resolved remaining_fraction].
      split; [reflexivity|]. split; [lia|]. split; [|split; [exact Hlen' | exact Hres]].
      intros Hzero.
      destruct (unresolved_count slots) eqn:Hcount; [exfalso | lia].
      apply Qcltb_true in Hpos.
      rewrite unresolved_weight_none in Hzero by assumption.
      replace fraction with 0 in Hpos by (rewrite <- Hzero; ring).
      revert Hpos. apply Qcle_not_lt, Qcle_refl.
  - exists (mkState slots space fraction), 0%nat.
    cbn [resolved remaining_fraction].
    split; [reflexivity|]. split; [lia|]. split; [intros _; lia|].
    split; [exact Hlen | reflexivity].
Qed.

Lemma initial_state_slots (items : list (item Scalar)) (space : Fraction) :
  List.length items = List.length (resolved (initial_state items space)) /\
  unresolved_count (resolved (initial_state items space)) = List.length items.
Proof.
  unfold initial_state. cbn [resolved]. rewrite repeat_length.
  split; [reflexivity|].
  induction items as [|entry items IH]; [reflexivity|].
  cbn [List.length repeat]. rewrite unresolved_count_cons, IH. reflexivity.
Qed.

(** Before the loop the pool holds the float sum of the weights: the
    residue is what rounding made of their exact sum. *)
Lemma initial_state_residue (items : list (item Scalar)) (space : Fraction) :
  pool_residue items (initial_state items space)
  = float_sum (item_weights items) - qsum (item_weights items).
Proof.
  unfold pool_residue, initial_state, item_weights.
  cbn [resolved remaining_fraction]. f_equal. f_equal.
  unfold unresolved_weight.
  induction items as [|[[scalar min_value] max_value] items IH]; [reflexivity|].
  cbn [List.length repeat combine map snd weight_of]. rewrite !qsum_cons, IH.
  reflexivity.
Qed.

(** The loop of [resolve_fraction_unit] always finishes. *)
Lemma fraction_loop_returns (widget_styles : list (RenderStyles Scalar))
    (space : Fraction) (resolve_dimension : Dimension) :
  let items := resolve_list size viewport_size resolve_dimension widget_styles in
  exists (final : loop_state) (rounds : nat),
    fraction_loop widget_styles size viewport_size space resolve_dimension
    = Some (final, rounds) /\
    (rounds <= S (List.length items))%nat /\
    (sums_exactly (item_weights items) -> (rounds <= List.length items)%nat) /\
    List.length items = List.length (resolved final) /\
    pool_residue items final
    = float_sum (item_weights items) - qsum (item_weights items).
Proof.
  intros items. unfold fraction_loop. fold items.
  destruct (initial_state_slots items space) as [Hlen Hcount].
  destruct (while_loop_total items (S (List.length items)) _ Hlen)
    as (final & rounds & Hrun & Hrounds & Hexact & Hfinal & Hkept); [lia|].
  rewrite initial_state_residue in Hexact, Hkept. rewrite Hcount in Hrounds, Hexact.
  exists final, rounds. split; [exact Hrun|]. split; [exact Hrounds|].
  split; [|split; [exact Hfinal | exact Hkept]].
  intros Hsum. apply Hexact. unfold sums_exactly in Hsum. rewrite Hsum. ring.
Qed.

Lemma length_resolve_list (resolve_dimension : Dimension)
    (widget_styles : list (RenderStyles Scalar)) :
  (List.length (resolve_list size viewport_size resolve_dimension widget_styles)
   <= List.length widget_styles)%nat.
Proof.
  destruct resolve_dimension; cbn [resolve_list]; rewrite length_map;
    apply filter_length_le.
Qed.

Lemma violated_bound_inv (min_value max_value : option Fraction)
    (resolved_scalar bound : Fraction) :
  violated_bound min_value max_value resolved_scalar = Some bound ->
  (min_value = Some bound /\ resolved_scalar < bound) \/
  (max_value = Some bound /\ bound < resolved_scalar).
Proof.
  unfold violated_bound. intros Hv.
  assert (Habove : match max_value with
                   | Some mx => if Qcltb mx resolved_scalar then Some mx else None
                   | None => None
                   end = Some bound ->
                   max_value = Some bound /\ bound < resolved_scalar).
  { destruct max_value as [mx|]; [|discriminate].
    destruct (Qcltb mx resolved_scalar) eqn:Hlt; [|discriminate].
    intros [= ->]. split; [reflexivity | apply Qcltb_true; exact Hlt]. }
  destruct min_value as [mn|]; [|right; auto].
  destruct (Qcltb resolved_scalar mn) eqn:Hlt; [|right; auto].
  injection Hv as ->. left. split; [reflexivity | apply Qcltb_true; exact Hlt].
Qed.

Lemma nth_error_combine_inv {A B : Type} (xs : list A) :
  forall (ys : list B) (index : nat) (x : A) (y : B),
    nth_error (combine xs ys) index = Some (x, y) ->
    nth_error xs index = Some x /\ nth_error ys index = Some y.
Proof.
  induction xs as [|x0 xs IH]; intros [|y0 ys] [|index] x y Hnth;
    cbn in Hnth |- *; try discriminate.
  - injection Hnth as -> ->. split; reflexivity.
  - apply IH. exact Hnth.
Qed.

Lemma fixed_space_after (u : Fraction) (items : list (item Scalar)) :
  forall slots : list (option Fraction),
    List.length items = List.length slots ->
    fixed_space (map (slot_after' u) (combine items slots)) =
    fixed_space slots + qsum (map (space_taken' u) (combine items slots)).
Proof.
  unfold fixed_space.
  induction items as [|[[scalar min_value] max_value] items IH];
    intros [|slot slots] Hlen; try discriminate.
  - cbn. ring.
  - injection Hlen as Hlen. cbn [combine map]. rewrite !qsum_cons, IH by assumption.
    unfold slot_after at 1, space_taken at 2. cbn [snd clamp_of].
    destruct slot as [b|]; [ring|].
    destruct (violated_bound _ _ _); ring.
Qed.

(** What one round of the [while] loop does to a state whose slots match
    the entries. *)
Lemma round_progress (items : list (item Scalar)) (state state' : loop_state)
    (changed : bool) :
  List.length items = List.length (resolved state) ->
  let u := remaining_space state / remaining_fraction state in
  for_loop' u items state false = (state', changed) ->
  (List.length items = List.length (resolved state') /\
   pool_residue items state' = pool_residue items state) /\
  remaining_space state' + fixed_space (resolved state') =
    remaining_space state + fixed_space (resolved state) /\
  (changed = true ->
   (unresolved_count (resolved state') < unresolved_count (resolved state))%nat /\
   exists (index : nat) (scalar : Scalar) (min_value max_value : option Fraction)
          (bound : Fraction),
     nth_error items index = Some (scalar, min_value, max_value) /\
     nth_error (resolved state) index = Some None /\
     nth_error (resolved state') index = Some (Some bound) /\
     let resolved_scalar := scalar_resolve scalar size viewport_size (Some u) in
     (min_value = Some bound /\ resolved_scalar < bound) \/
     (max_value = Some bound /\ bound < resolved_scalar)) /\
  (changed = false -> resolved state' = resolved state).
Proof.
  destruct state as [slots space fraction]. intros Hlen u.
  unfold pool_residue.
  cbn [resolved remaining_space remaining_fraction] in *.
  rewrite for_loop_closed by assumption. cbn [orb]. intros [= <- <-].
  cbn [resolved remaining_space remaining_fraction].
  destruct (unresolved_count_after u items slots Hlen) as [_ Hlt].
  split; [split | split; [|split; [intros Hchanged; split|]]].
  - symmetry. apply length_slot_after. assumption.
  - rewrite combine_slot_after, unresolved_weight_repair. ring.
  - rewrite fixed_space_after by assumption. ring.
  - apply Hlt. exact Hchanged.
  - apply existsb_exists in Hchanged
      as ([[[scalar min_value] max_value] slot] & Hin & Hc).
    apply In_nth_error in Hin as [index Hnth].
    unfold is_clamped in Hc. cbn [clamp_of] in Hc.
    destruct slot as [b|]; [discriminate|].
    destruct (violated_bound min_value max_value _) as [bound|] eqn:Hv;
      [|discriminate].
    exists index, scalar, min_value, max_value, bound.
    destruct (nth_error_combine_inv _ _ _ _ _ Hnth) as [Hitem Hslot].
    repeat split; try assumption.
    + rewrite nth_error_map, Hnth. cbn [option_map].
      unfold slot_after. cbn [snd clamp_of]. rewrite Hv. reflexivity.
    + apply violated_bound_inv. exact Hv.
  - intros Hnone. clear Hlt.
    revert slots Hlen Hnone.
    induction items as [|[[scalar min_value] max_value] items IH];
      intros [|slot slots] Hlen Hnone; try discriminate; [reflexivity|].
    injection Hlen as Hlen. cbn [combine map existsb] in *.
    apply orb_false_elim in Hnone as [Hhead Htail].
    rewrite (IH slots Hlen Htail). f_equal.
    unfold slot_after, is_clamped in *. cbn [snd] in *.
    destruct slot as [b|]; [reflexivity|].
    destruct (clamp_of' u _); [discriminate | reflexivity].
Qed.

Lemma guard_passed (widget_styles : list (RenderStyles Scalar)) (space : Fraction) :
  space <> 0 -> widget_styles <> [] ->
  negb (truthy space) || match widget_styles with [] => true | _ => false end
  = false.
Proof.
  intros Hspace Hstyles. apply truthy_true in Hspace. rewrite Hspace.
  destruct widget_styles; [contradiction | reflexivity].
Qed.

(** X18: the loop of [resolve_fraction_unit] finishes, for N widget styles,
    after at most N + 1 rounds, and after at most N rounds when the float
    sum of the weights is exact; a round run from a state of the loop either
    fixes an unresolved entry to the bound it crosses, so that fewer entries
    remain unresolved and the pool gives up the weight and the space of the
    fixed ones, or it is the last round. *)
Theorem fraction_loop_rounds_bounded (widget_styles : list (RenderStyles Scalar))
    (space : Fraction) (resolve_dimension : Dimension) :
  (exists (final : loop_state) (rounds : nat),
      fraction_loop widget_styles size viewport_size space resolve_dimension
      = Some (final, rounds) /\
      (rounds <= S (List.length widget_styles))%nat /\
      (sums_exactly
         (item_weights
            (resolve_list size viewport_size resolve_dimension widget_styles)) ->
       (rounds <= List.length widget_styles)%nat)) /\
  (forall (items : list (item Scalar)) (state state' : loop_state) (changed : bool),
      List.length items = List.length (resolved state) ->
      0 < remaining_fraction state ->
      let u := remaining_space state / remaining_fraction state in
      for_loop' u items state false = (state', changed) ->
      (List.length items = List.length (resolved state') /\
       pool_residue items state' = pool_residue items state) /\
      remaining_space state' + fixed_space (resolved state') =
        remaining_space state + fixed_space (resolved state) /\
      ((changed = true /\
        (unresolved_count (resolved state') < unresolved_count (resolved state))%nat /\
        exists (index : nat) (scalar : Scalar) (min_value max_value : option Fraction)
               (bound : Fraction),
          nth_error items index = Some (scalar, min_value, max_value) /\
          nth_error (resolved state) index = Some None /\
          nth_error (resolved state') index = Some (Some bound) /\
          let resolved_scalar := scalar_resolve scalar size viewport_size (Some u) in
          (min_value = Some bound /\ resolved_scalar < bound) \/
          (max_value = Some bound /\ bound < resolved_scalar)) \/
       (changed = false /\
        forall fuel : nat,
          while_loop (S fuel) size viewport_size items state = Some (state', 1%nat)))).
Proof.
  split.
  - destruct (fraction_loop_returns widget_styles space resolve_dimension)
      as (final & rounds & Hrun & Hrounds & Hexact & _).
    pose proof (length_resolve_list resolve_dimension widget_styles) as Hlen.
    exists final, rounds. split; [exact Hrun|]. split; [lia|].
    intros Hsum. specialize (Hexact Hsum). lia.
  - intros items state state' changed Hinv Hpos u Hround.
    destruct (round_progress items state state' changed Hinv Hround)
      as (Hinv' & Hspace & Hfix & _).
    split; [exact Hinv'|]. split; [exact Hspace|].
    destruct changed.
    + left. split; [reflexivity|]. apply Hfix. reflexivity.
    + right. split; [reflexivity|]. intros fuel.
      cbn [while_loop]. apply Qcltb_true in Hpos. rewrite Hpos.
      fold u. rewrite Hround. reflexivity.
Qed.

(** C4: [resolve_fraction_unit] returns 1 when the remaining space is zero
    or no widget styles are given, whatever the sizes and the axis. *)
Theorem resolve_fraction_unit_default (widget_styles : list (RenderStyles Scalar))
    (space : Fraction) (resolve_dimension : Dimension) :
  space = 0 \/ widget_styles = [] ->
  resolve_fraction_unit widget_styles size viewport_size space resolve_dimension
  = Some 1.
Proof.
  unfold resolve_fraction_unit. intros [-> | ->].
  - reflexivity.
  - rewrite orb_true_r. reflexivity.
Qed.

(** C10: when every widget style given is an overlay on the screen and the
    remaining space is not zero, the filter leaves nothing to resolve, the
    loop does not run, and the remaining space itself is returned, not 1. *)
Theorem all_overlay_returns_remaining_space (widget_styles : list (RenderStyles Scalar))
    (space : Fraction) (resolve_dimension : Dimension) :
  widget_styles <> [] ->
  Forall (fun styles => overlay styles = "screen"%string) widget_styles ->
  space <> 0 ->
  resolve_list size viewport_size resolve_dimension widget_styles = [] /\
  fraction_loop widget_styles size viewport_size space resolve_dimension
  = Some (mkState [] space 0, 0%nat) /\
  resolve_fraction_unit widget_styles size viewport_size space resolve_dimension
  = Some space.
Proof.
  intros Hne Hall Hspace.
  assert (Hfilter : filter in_flow widget_styles = []).
  { clear Hne. induction Hall as [|styles rest Hov _ IH]; [reflexivity|].
    cbn [filter]. unfold in_flow at 1. rewrite Hov. cbn. exact IH. }
  assert (Hlist : resolve_list size viewport_size resolve_dimension widget_styles = []).
  { destruct resolve_dimension; cbn [resolve_list]; rewrite Hfilter; reflexivity. }
  assert (Hloop : fraction_loop widget_styles size viewport_size space
                    resolve_dimension = Some (mkState [] space 0, 0%nat)).
  { unfold fraction_loop. rewrite Hlist. reflexivity. }
  repeat split; [exact Hlist | exact Hloop |].
  unfold resolve_fraction_unit. rewrite guard_passed, Hloop by assumption.
  reflexivity.
Qed.

Lemma all_fixed_count (slots : list (option Fraction)) :
  Forall (fun slot => slot <> None) slots -> unresolved_count slots = 0%nat.
Proof.
  induction 1 as [|slot slots Hslot _ IH]; [reflexivity|].
  rewrite unresolved_count_cons, IH. destruct slot; [reflexivity | contradiction].
Qed.

(** X19: when the float sum of the weights does not exceed their exact sum
    and the loop ends with every entry fixed to a bound,
    [resolve_fraction_unit] returns the remaining space it was called with;
    so it does for a single entry of weight 1 whose minimum resolves to 20
    with remaining space 10: the entry is fixed to 20, no weight is left
    and 10 is returned. *)
Theorem all_clamped_returns_initial_space :
  (forall (widget_styles : list (RenderStyles Scalar)) (space : Fraction)
          (resolve_dimension : Dimension) (final : loop_state) (rounds : nat),
      let items := resolve_list size viewport_size resolve_dimension widget_styles in
      space <> 0 -> widget_styles <> [] ->
      float_sum (item_weights items) <= qsum (item_weights items) ->
      fraction_loop widget_styles size viewport_size space resolve_dimension
      = Some (final, rounds) ->
      Forall (fun slot => slot <> None) (resolved final) ->
      resolve_fraction_unit widget_styles size viewport_size space resolve_dimension
      = Some space) /\
  (forall (scalar minimum : Scalar) (styles : RenderStyles Scalar),
      value scalar = 1 ->
      (forall u, scalar_resolve scalar size viewport_size (Some u) = value scalar * u) ->
      scalar_resolve minimum size viewport_size (Some 1) = Fraction_of_int 20 ->
      width styles = scalar -> min_width styles = Some minimum ->
      overlay styles <> "screen"%string ->
      exists final : loop_state,
        fraction_loop [styles] size viewport_size (Fraction_of_int 10) Width
        = Some (final, 1%nat) /\
        resolved final = [Some (Fraction_of_int 20)] /\
        remaining_fraction final = 0 /\
        resolve_fraction_unit [styles] size viewport_size (Fraction_of_int 10) Width
        = Some (Fraction_of_int 10)).
Proof.
  split.
  - intros widget_styles space resolve_dimension final rounds items
           Hspace Hne Hsum Hrun Hall.
    unfold resolve_fraction_unit. rewrite guard_passed, Hrun by assumption.
    destruct (fraction_loop_returns widget_styles space resolve_dimension)
      as (final' & rounds' & Hrun' & _ & _ & Hlen & Hres).
    rewrite Hrun in Hrun'. injection Hrun' as <- <-. fold items in Hlen, Hres.
    unfold pool_residue in Hres.
    rewrite unresolved_weight_none in Hres
      by (assumption || apply all_fixed_count; assumption).
    destruct final as [slots space' fraction]. cbn [remaining_fraction] in Hres.
    assert (Hle : fraction <= 0).
    { revert Hres Hsum. generalize (float_sum (item_weights items)).
      generalize (qsum (item_weights items)). intros total rounded Hres Hsum.
      replace fraction with (rounded - total) by (rewrite <- Hres; ring).
      clear Hres. to_Q. lra. }
    rewrite (proj2 (Qcltb_false _ _) Hle). reflexivity.
  - intros scalar minimum styles Hvalue Hfr Hmin Hwidth Hminw Hov.
    assert (Hflow : in_flow styles = true).
    { unfold in_flow. apply negb_true_iff, String.eqb_neq. exact Hov. }
    assert (Hone : float_sum [value scalar] = 1).
    { rewrite Hvalue. apply Qc_is_canon. reflexivity. }
    assert (Hloop : fraction_loop [styles] size viewport_size (Fraction_of_int 10) Width
                    = Some (mkState [Some (Fraction_of_int 20)]
                              (Fraction_of_int 10 - Fraction_of_int 20) 0, 1%nat)).
    { unfold fraction_loop. cbn [resolve_list filter]. rewrite Hflow.
      cbn [map List.length]. unfold initial_state.
      cbn [map List.length repeat]. rewrite Hwidth, Hminw.
      cbn [resolve_scalar]. rewrite Hmin, Hone.
      cbn [while_loop remaining_fraction remaining_space for_loop resolved loop_body].
      replace (Qcltb 0 1) with true by reflexivity.
      rewrite Hfr, Hvalue.
      replace (1 * (Fraction_of_int 10 / 1)) with (Fraction_of_int 10) by (field; discriminate).
      unfold violated_bound.
      replace (Qcltb (Fraction_of_int 10) (Fraction_of_int 20)) with true by reflexivity.
      cbn [resolved remaining_space remaining_fraction].
      replace (1 - 1) with 0 by ring.
      replace (Qcltb 0 0) with false by reflexivity.
      reflexivity. }
    eexists. split; [exact Hloop|]. cbn [resolved remaining_fraction].
    repeat split.
    unfold resolve_fraction_unit. rewrite Hloop.
    replace (truthy (Fraction_of_int 10)) with true by reflexivity.
    reflexivity.
Qed.

Lemma combine_initial_slots (items : list (item Scalar)) :
  combine items (repeat None (List.length items)) =
  map (fun entry => (entry, @None Fraction)) items.
Proof.
  induction items as [|entry items IH]; [reflexivity|].
  cbn [List.length repeat combine map]. rewrite IH. reflexivity.
Qed.

Lemma resolve_list_permutation (resolve_dimension : Dimension)
    (styles1 styles2 : list (RenderStyles Scalar)) :
  Permutation styles1 styles2 ->
  Permutation (resolve_list size viewport_size resolve_dimension styles1)
              (resolve_list size viewport_size resolve_dimension styles2).
Proof.
  intros Hperm. destruct resolve_dimension; cbn [resolve_list];
    apply Permutation_map, Permutation_filter_keep, Hperm.
Qed.

(** Two runs of the loop from states that pair the same entries with the
    same slots, in any order, end with the same pool after the same number
    of rounds. *)
Lemma while_loop_permutation :
  forall (fuel : nat) (items1 items2 : list (item Scalar))
         (slots1 slots2 : list (option Fraction)) (space fraction : Fraction),
    List.length items1 = List.length slots1 ->
    List.length items2 = List.length slots2 ->
    Permutation (combine items1 slots1) (combine items2 slots2) ->
    match while_loop fuel size viewport_size items1 (mkState slots1 space fraction),
          while_loop fuel size viewport_size items2 (mkState slots2 space fraction)
    with
    | Some (final1, rounds1), Some (final2, rounds2) =>
        remaining_space final1 = remaining_space final2 /\
        remaining_fraction final1 = remaining_fraction final2 /\
        rounds1 = rounds2
    | None, None => True
    | _, _ => False
    end.
Proof.
  induction fuel as [|fuel IH];
    intros items1 items2 slots1 slots2 space fraction Hlen1 Hlen2 Hperm;
    cbn [while_loop remaining_fraction remaining_space];
    destruct (Qcltb 0 fraction); try exact I; try (repeat split; reflexivity).
  rewrite !for_loop_closed by assumption. cbn [orb].
  set (u := space / fraction).
  rewrite (existsb_permutation (is_clamped' u) _ _ Hperm).
  rewrite (qsum_permutation _ _ (Permutation_map (space_taken' u) Hperm)).
  rewrite (qsum_permutation _ _ (Permutation_map (weight_taken' u) Hperm)).
  destruct (existsb _ _).
  - match goal with
    | |- context [while_loop fuel _ _ items1 (mkState ?s1 ?sp ?fr)] =>
        specialize (IH items1 items2 s1
                       (map (slot_after' u) (combine items2 slots2)) sp fr)
    end.
    rewrite !length_slot_after, !combine_slot_after in IH by assumption.
    specialize (IH eq_refl eq_refl (Permutation_map (repair' u) Hperm)).
    destruct (while_loop fuel _ _ items1 _) as [[final1 rounds1]|],
             (while_loop fuel _ _ items2 _) as [[final2 rounds2]|];
      try contradiction; try exact I.
    destruct IH as (? & ? & ?). repeat split; congruence.
  - cbn [remaining_space remaining_fraction]. repeat split; reflexivity.
Qed.

(** X20: the unit returned by [resolve_fraction_unit] does not depend on the
    order of the widget styles when the float sum of the weights comes out
    the same in both orders, as it does when it is exact; in a round every
    slot is decided from the candidate unit of that round alone, so every
    entry that crosses a bound at that unit is fixed in the round. *)
Theorem resolve_fraction_unit_permutation
    (styles1 styles2 : list (RenderStyles Scalar)) (space : Fraction)
    (resolve_dimension : Dimension) :
  Permutation styles1 styles2 ->
  float_sum (item_weights
               (resolve_list size viewport_size resolve_dimension styles1))
  = float_sum (item_weights
                 (resolve_list size viewport_size resolve_dimension styles2)) ->
  resolve_fraction_unit styles1 size viewport_size space resolve_dimension =
  resolve_fraction_unit styles2 size viewport_size space resolve_dimension /\
  (forall (u : Fraction) (items : list (item Scalar)) (state : loop_state)
          (changed : bool),
      List.length items = List.length (resolved state) ->
      resolved (fst (for_loop' u items state changed)) =
      map (slot_after' u) (combine items (resolved state))).
Proof.
  intros Hperm Hsum. split.
  - unfold resolve_fraction_unit.
    assert (Hempty : match styles1 with [] => true | _ => false end =
                     match styles2 with [] => true | _ => false end).
    { destruct styles1 as [|s1 rest1].
      - apply Permutation_nil in Hperm. rewrite Hperm. reflexivity.
      - destruct styles2; [|reflexivity].
        apply Permutation_sym, Permutation_nil in Hperm. discriminate. }
    rewrite Hempty.
    destruct (negb (truthy space) || _); [reflexivity|].
    unfold fraction_loop.
    pose proof (resolve_list_permutation resolve_dimension _ _ Hperm) as Hitems.
    set (items1 := resolve_list size viewport_size resolve_dimension styles1) in *.
    set (items2 := resolve_list size viewport_size resolve_dimension styles2) in *.
    unfold initial_state. fold (item_weights items1). fold (item_weights items2).
    rewrite <- (Permutation_length Hitems) at 1. rewrite <- Hsum.
    pose proof (while_loop_permutation (S (List.length items1)) items1 items2
                  (repeat None (List.length items1))
                  (repeat None (List.length items2)) space
                  (float_sum (item_weights items1))) as Hrun.
    rewrite !repeat_length, !combine_initial_slots in Hrun.
    specialize (Hrun eq_refl eq_refl (Permutation_map _ Hitems)).
    destruct (while_loop _ _ _ items1 _) as [[[slots1 space1 fraction1] rounds1]|],
             (while_loop _ _ _ items2 _) as [[[slots2 space2 fraction2] rounds2]|];
      try contradiction; [|reflexivity].
    cbn [remaining_space remaining_fraction] in Hrun.
    destruct Hrun as (-> & -> & _). reflexivity.
  - intros u items [slots space' fraction] changed Hlen.
    cbn [resolved] in *. rewrite for_loop_closed by assumption. reflexivity.
Qed.

End PoolFacts.

(** ** [resolve] *)

Lemma py_max_Qc_max (a b : Fraction) : py_max a b = Qc_max a b.
Proof.
  unfold py_max, Qc_max.
  destruct (Qcltb a b) eqn:Hlt, (Qcleb a b) eqn:Hle; try reflexivity.
  - apply Qcltb_true in Hlt. apply Qcleb_false in Hle.
    exfalso. exact (Qclt_not_le _ _ Hlt (Qclt_le_weak _ _ Hle)).
  - apply Qcltb_false in Hlt. apply Qcleb_true in Hle.
    apply Qcle_antisym; assumption.
Qed.

Lemma Fraction_of_int_plus (n m : Z) :
  Fraction_of_int (n + m) = Fraction_of_int n + Fraction_of_int m.
Proof.
  apply Qc_is_canon. to_Q. rewrite inject_Z_plus. reflexivity.
Qed.

Lemma floor_of_int (n : Z) : floor (Fraction_of_int n) = n.
Proof.
  unfold floor. rewrite this_of_int. apply Qfloor_Z.
Qed.

Lemma floor_plus_int (x : Fraction) (n : Z) :
  floor (x + Fraction_of_int n) = (floor x + n)%Z.
Proof.
  unfold floor. rewrite this_plus, this_of_int.
  destruct (this x) as [a b]. unfold Qplus, Qfloor, inject_Z. cbn [Qnum Qden].
  rewrite Z.mul_1_r, Pos.mul_1_r. apply Z_div_plus. reflexivity.
Qed.

Lemma accumulate_from_zero (xs : list Fraction) : accumulate xs = accumulate_from 0 xs.
Proof.
  destruct xs as [|x xs]; [reflexivity|].
  cbn [accumulate accumulate_from]. rewrite Qcplus_0_l. reflexivity.
Qed.

Lemma results_from (fraction_gutter : Fraction) (lengths : list Fraction) :
  forall start : Fraction,
    let offsets :=
      floor start
      :: map floor (accumulate_from start
                      (flat_map (fun fraction => [fraction; fraction_gutter]) lengths)) in
    map (fun '(offset1, offset2) => (offset1, (offset2 - offset1)%Z))
        (combine (even_slice offsets) (odd_slice offsets))
    = spans fraction_gutter start lengths.
Proof.
  induction lengths as [|length lengths IH]; intros start; [reflexivity|].
  cbn [flat_map app accumulate_from map even_slice odd_slice combine spans].
  f_equal. apply IH.
Qed.

Lemma build_results_spans (fraction_gutter : Fraction) (lengths : list Fraction) :
  build_results fraction_gutter lengths = spans fraction_gutter 0 lengths.
Proof.
  unfold build_results. rewrite accumulate_from_zero.
  apply (results_from fraction_gutter lengths 0).
Qed.

Lemma length_spans (fraction_gutter : Fraction) (lengths : list Fraction) :
  forall start, List.length (spans fraction_gutter start lengths) = List.length lengths.
Proof.
  induction lengths as [|length lengths IH]; intros start; [reflexivity|].
  cbn [spans List.length]. rewrite IH. reflexivity.
Qed.

(** Adjacent cells: the next offset is the end of the cell plus the gutter. *)
Lemma spans_adjacent (gutter : Z) (lengths : list Fraction) :
  forall (start : Fraction) (index : nat) (offset length offset' length' : Z),
    nth_error (spans (Fraction_of_int gutter) start lengths) index
    = Some (offset, length) ->
    nth_error (spans (Fraction_of_int gutter) start lengths) (S index)
    = Some (offset', length') ->
    offset' = (offset + length + gutter)%Z.
Proof.
  induction lengths as [|f lengths IH]; intros start [|index] o l o' l' H1 H2;
    cbn [spans nth_error] in H1, H2; try discriminate.
  - destruct lengths as [|f' lengths]; [discriminate|].
    cbn [spans nth_error] in H2. injection H1 as <- <-. injection H2 as <- _.
    rewrite floor_plus_int. lia.
  - eapply IH; eassumption.
Qed.

(** Whole lengths are returned as they are. *)
Lemma spans_whole (gutter : Z) (lengths : list Z) :
  forall start : Z,
    map snd (spans (Fraction_of_int gutter) (Fraction_of_int start)
                   (map Fraction_of_int lengths))
    = lengths.
Proof.
  induction lengths as [|n lengths IH]; intros start; [reflexivity|].
  cbn [map spans snd].
  rewrite <- !Fraction_of_int_plus, !floor_of_int, IH. f_equal. lia.
Qed.

Section ResolveFacts.

Context {Scalar : Type} `{ScalarLike Scalar}.
Variables size viewport : Size.

Lemma resolve_fractions_fixed (dimensions : list Scalar) (total total_gutter : Z)
    (expand_or_shrink : bool) :
  Forall (fun scalar => is_fraction scalar = false) dimensions ->
  resolve_fractions size viewport dimensions total total_gutter expand_or_shrink
  = Ok (exact_lengths size viewport dimensions).
Proof.
  intros Hfixed. unfold resolve_fractions.
  assert (Hdeferred : deferred_values (classify size viewport dimensions) = []).
  { unfold classify, deferred_values.
    induction Hfixed as [|scalar rest Hs _ IH]; [reflexivity|].
    cbn [map flat_map]. rewrite Hs. exact IH. }
  assert (Hcast : all_lengths (map snd (classify size viewport dimensions))
                  = Some (exact_lengths size viewport dimensions)).
  { clear Hdeferred. unfold classify, exact_lengths.
    induction Hfixed as [|scalar rest Hs _ IH]; [reflexivity|].
    cbn [map]. rewrite Hs. cbn [snd all_lengths]. rewrite IH. reflexivity. }
  rewrite Hdeferred. cbn [py_sum fold_left].
  replace (truthy 0) with false by reflexivity.
  unfold cast_lengths. rewrite Hcast. reflexivity.
Qed.

Lemma shrink_step_fits (total_space used_space : Fraction)
    (minimums : option (list Z)) (lengths : list Fraction) :
  used_space <= total_space ->
  shrink_step total_space used_space minimums lengths = Ok lengths.
Proof.
  intros Hfits. unfold shrink_step.
  assert (Hexcess : Qcltb 0 (used_space - total_space) = false).
  { apply Qcltb_false. to_Q. lra. }
  rewrite Hexcess. destruct minimums; cbn [bind]; rewrite Hexcess; reflexivity.
Qed.

Lemma expand_step_full (total_space used_space : Fraction) (lengths : list Fraction) :
  total_space <= used_space ->
  expand_step total_space used_space lengths = Ok lengths.
Proof.
  intros Hfull. unfold expand_step.
  assert (Hremaining : Qcltb 0 (total_space - used_space) = false).
  { apply Qcltb_false. to_Q. lra. }
  rewrite Hremaining. reflexivity.
Qed.

Lemma redistribute_fits (total total_gutter : Z) (shrink : bool)
    (minimums : option (list Z)) (lengths : list Fraction) :
  py_sum lengths <= Fraction_of_int (total - total_gutter) ->
  redistribute total total_gutter false shrink minimums lengths = Ok lengths.
Proof.
  intros Hfits. unfold redistribute. cbn [bind].
  destruct shrink; [|reflexivity]. apply shrink_step_fits, Hfits.
Qed.

Lemma redistribute_exact (total total_gutter : Z) (expand shrink : bool)
    (minimums : option (list Z)) (lengths : list Fraction) :
  py_sum lengths = Fraction_of_int (total - total_gutter) ->
  redistribute total total_gutter expand shrink minimums lengths = Ok lengths.
Proof.
  intros Hexact. unfold redistribute. rewrite Hexact.
  rewrite expand_step_full by apply Qcle_refl.
  destruct expand, shrink; cbn [bind]; try reflexivity;
    apply shrink_step_fits, Qcle_refl.
Qed.

Lemma shrink_loop_pass (total_space : Fraction) (minimums : list Z) :
  forall (lengths : list Fraction) (used excess : Fraction) (shrunk : list Fraction),
    shrink_loop total_space minimums lengths used excess = Ok shrunk ->
    shrink_pass total_space minimums lengths used excess shrunk.
Proof.
  induction minimums as [|minimum minimums IH];
    intros [|length lengths] used excess shrunk Hrun; cbn [shrink_loop] in Hrun.
  - injection Hrun as <-. constructor.
  - injection Hrun as <-. constructor.
  - injection Hrun as <-. constructor.
  - unfold Fraction_div in Hrun. destruct (Qceqb used 0); [discriminate|].
    cbn [bind] in Hrun. rewrite !py_max_Qc_max in Hrun.
    destruct (Qcleb _ 0) eqn:Hstop.
    + injection Hrun as <-. apply Qcleb_true in Hstop.
      eapply pass_stop; [reflexivity | reflexivity | exact Hstop].
    + destruct (shrink_loop _ _ _ _ _) as [rest|] eqn:Hrest; [|discriminate].
      cbn [bind] in Hrun. injection Hrun as <-. apply Qcleb_false in Hstop.
      eapply pass_next; [reflexivity | reflexivity | exact Hstop |].
      apply IH. exact Hrest.
Qed.

(** The pass never divides by zero when the available space is not
    negative: the used space stays above it as long as the pass goes on. *)
Lemma shrink_loop_returns (total_space : Fraction) (minimums : list Z) :
  forall (lengths : list Fraction) (used excess : Fraction),
    0 <= total_space -> total_space < used ->
    exists shrunk : list Fraction,
      shrink_loop total_space minimums lengths used excess = Ok shrunk.
Proof.
  induction minimums as [|minimum minimums IH];
    intros [|length lengths] used excess Hspace Hused; cbn [shrink_loop];
    try (eexists; reflexivity).
  assert (Hnz : Qceqb used 0 = false).
  { apply Qceqb_false. intros ->.
    exact (Qclt_not_le _ _ Hused Hspace). }
  unfold Fraction_div. rewrite Hnz. cbn [bind].
  set (updated := py_max _ _).
  destruct (Qcleb _ 0) eqn:Hstop; [eexists; reflexivity|].
  apply Qcleb_false in Hstop.
  destruct (IH lengths (used - length + updated)
               (used - length + updated - total_space) Hspace) as [rest Hrest].
  - revert Hstop. generalize (used - length + updated). intros used' Hstop.
    to_Q. lra.
  - rewrite Hrest. eexists. reflexivity.
Qed.

(** C5, as the code has it: for scalars none of which is a fraction and
    whose exact lengths with the gutters fit in the total, [resolve] without
    [expand] lays the cells out from 0, each from the floor of its exact
    start to the floor of its exact end; lengths that are whole numbers are
    returned exactly; every next offset is the previous offset plus the
    length plus the gutter, and is strictly larger when length plus gutter
    is positive. *)
Theorem resolve_fixed_layout (dimensions : list Scalar) (total gutter : Z)
    (shrink : bool) (minimums : option (list Z)) :
  Forall (fun scalar => is_fraction scalar = false) dimensions ->
  py_sum (exact_lengths size viewport dimensions)
  + Fraction_of_int (gutter * (Z.of_nat (List.length dimensions) - 1))
  <= Fraction_of_int total ->
  exists results : list (Z * Z),
    resolve dimensions total gutter size viewport false shrink minimums = Ok results /\
    results = spans (Fraction_of_int gutter) 0 (exact_lengths size viewport dimensions) /\
    List.length results = List.length dimensions /\
    (forall lengths : list Z,
        exact_lengths size viewport dimensions = map Fraction_of_int lengths ->
        map snd results = lengths) /\
    (forall offset length : Z,
        nth_error results 0 = Some (offset, length) -> offset = 0%Z) /\
    (forall (index : nat) (offset length offset' length' : Z),
        nth_error results index = Some (offset, length) ->
        nth_error results (S index) = Some (offset', length') ->
        offset' = (offset + length + gutter)%Z /\
        ((0 < length + gutter)%Z -> (offset < offset')%Z)).
Proof.
  intros Hfixed Hfits.
  exists (spans (Fraction_of_int gutter) 0 (exact_lengths size viewport dimensions)).
  split; [|split; [reflexivity|split; [|split; [|split]]]].
  - unfold resolve. rewrite resolve_fractions_fixed by assumption.
    cbn [bind orb]. rewrite <- build_results_spans.
    destruct shrink; [|reflexivity].
    rewrite redistribute_fits; [reflexivity|].
    set (total_gutter := (gutter * (Z.of_nat (List.length dimensions) - 1))%Z) in *.
    replace (total - total_gutter)%Z with (total + - total_gutter)%Z by lia.
    revert Hfits. to_Q. rewrite inject_Z_plus, inject_Z_opp. intros Hfits. lra.
  - rewrite length_spans. unfold exact_lengths. apply length_map.
  - intros lengths ->. apply (spans_whole gutter lengths 0).
  - intros offset length. destruct (exact_lengths size viewport dimensions); [discriminate|].
    cbn [spans nth_error]. intros [= <- _]. reflexivity.
  - intros index offset length offset' length' H1 H2.
    pose proof (spans_adjacent _ _ _ _ _ _ _ _ H1 H2) as Hnext.
    split; [exact Hnext | lia].
Qed.

(** X21: three fraction scalars of one non-zero weight whose float sum is
    exact, as it is for the weight 1, gutter 0, total 10: the lengths are 3,
    3 and 4, which sum to 10. *)
Theorem resolve_three_equal_fractions (s1 s2 s3 : Scalar) (w : Fraction)
    (expand shrink : bool) (minimums : option (list Z)) :
  is_fraction s1 = true -> is_fraction s2 = true -> is_fraction s3 = true ->
  value s1 = w -> value s2 = w -> value s3 = w -> w <> 0 ->
  sums_exactly [w; w; w] ->
  resolve [s1; s2; s3] 10 0 size viewport expand shrink minimums
  = Ok [(0, 3); (3, 3); (6, 4)]%Z.
Proof.
  intros Hf1 Hf2 Hf3 Hv1 Hv2 Hv3 Hw Hexact.
  unfold resolve, resolve_fractions, classify. cbn [map List.length].
  rewrite Hf1, Hf2, Hf3. cbn [deferred_values fixed_lengths flat_map app].
  rewrite Hv1, Hv2, Hv3.
  assert (Hsum : float_sum [w; w; w] = (1 + 1 + 1) * w).
  { rewrite Hexact. cbn [qsum fold_right]. ring. }
  assert (Hthree : (1 + 1 + 1 : Qc) <> 0) by discriminate.
  assert (Hnz : float_sum [w; w; w] <> 0).
  { rewrite Hsum. intros Hz. apply Qcmult_integral in Hz as [Hz | Hz]; contradiction. }
  rewrite (proj2 (truthy_true _) Hnz). unfold Fraction_div.
  rewrite (proj2 (Qceqb_false _ _) Hnz). cbn [bind map].
  replace (py_max 0 _) with (Fraction_of_int 10)
    by (apply Qc_is_canon; reflexivity).
  replace (w * (Fraction_of_int 10 / float_sum [w; w; w]))
    with (Fraction_of_int 10 / (1 + 1 + 1))
    by (rewrite Hsum; field; split; assumption).
  rewrite redistribute_exact by (apply Qc_is_canon; reflexivity).
  destruct (expand || shrink); reflexivity.
Qed.

(** C7: when [shrink] is set, minimums are given and the excess is
    positive, the pass over the minimums returns when the available space is
    not negative, and it is the one the specification words: items in order, removal = max(length / used_space, 1) x excess,
    new length = max(minimum, length - removal), used space and excess
    updated after each item, stopping once excess <= 0.  For cells 80 and 20
    with minimums 50 and 10 and total 60 the pass gives 50 and 10, and
    [resolve] returns the lengths 50 and 10, which sum to 60. *)
Theorem shrink_with_minimums :
  (forall (total_space used : Fraction) (mins : list Z) (lengths : list Fraction),
      0 <= total_space -> 0 < used - total_space ->
      exists shrunk : list Fraction,
        shrink_loop total_space mins lengths used (used - total_space) = Ok shrunk) /\
  (forall (total_space used : Fraction) (mins : list Z)
          (lengths shrunk : list Fraction),
      0 < used - total_space ->
      shrink_loop total_space mins lengths used (used - total_space) = Ok shrunk ->
      shrink_pass total_space mins lengths used (used - total_space) shrunk /\
      shrink_step total_space used (Some mins) lengths =
      (let used' := py_sum shrunk in
       if Qcltb 0 (used' - total_space)
       then comprehension
              (fun width => share <- Fraction_div width used' ;;
                            Ok (width - share * (used' - total_space)))
              shrunk
       else Ok shrunk)) /\
  (forall cell1 cell2 : Scalar,
      is_fraction cell1 = false -> is_fraction cell2 = false ->
      scalar_resolve cell1 size viewport None = Fraction_of_int 80 ->
      scalar_resolve cell2 size viewport None = Fraction_of_int 20 ->
      shrink_loop (Fraction_of_int 60) [50; 10]%Z
                  [Fraction_of_int 80; Fraction_of_int 20]
                  (Fraction_of_int 100) (Fraction_of_int 40)
      = Ok [Fraction_of_int 50; Fraction_of_int 10] /\
      resolve [cell1; cell2] 60 0 size viewport false true (Some [50; 10]%Z)
      = Ok [(0, 50); (50, 10)]%Z).
Proof.
  split; [|split].
  - intros total_space used mins lengths Hspace Hexcess.
    apply shrink_loop_returns; [exact Hspace|]. to_Q. lra.
  - intros total_space used mins lengths shrunk Hexcess Hrun. split.
    + apply shrink_loop_pass. exact Hrun.
    + unfold shrink_step. rewrite (proj2 (Qcltb_true _ _) Hexcess), Hrun.
      reflexivity.
  - intros cell1 cell2 Hf1 Hf2 Hr1 Hr2.
    assert (Hloop : shrink_loop (Fraction_of_int 60) [50; 10]%Z
                      [Fraction_of_int 80; Fraction_of_int 20]
                      (Fraction_of_int 100) (Fraction_of_int 40)
                    = Ok [Fraction_of_int 50; Fraction_of_int 10])
      by reflexivity.
    split; [exact Hloop|].
    unfold resolve. rewrite resolve_fractions_fixed by (repeat constructor; assumption).
    unfold exact_lengths. cbn [map]. rewrite Hr1, Hr2. reflexivity.
Qed.

End ResolveFacts.

(** ** Further properties of [resolve] *)

Lemma comprehension_inv {A B : Type} (f : A -> result B) (xs : list A) :
  forall ys : list B,
    comprehension f xs = Ok ys -> Forall2 (fun x y => f x = Ok y) xs ys.
Proof.
  induction xs as [|x xs IH]; intros ys Hrun; cbn [comprehension] in Hrun.
  - injection Hrun as <-. constructor.
  - destruct (f x) as [y|] eqn:Hx; [|discriminate]. cbn [bind] in Hrun.
    destruct (comprehension f xs) as [ys'|]; [|discriminate].
    cbn [bind] in Hrun. injection Hrun as <-.
    constructor; [exact Hx | apply IH; reflexivity].
Qed.

Lemma comprehension_map {A B : Type} (f : A -> result B) (g : A -> B)
    (xs : list A) :
  (forall x, In x xs -> f x = Ok (g x)) -> comprehension f xs = Ok (map g xs).
Proof.
  induction xs as [|x xs IH]; intros Hf; cbn [comprehension map]; [reflexivity|].
  rewrite (Hf x (or_introl eq_refl)). cbn [bind].
  rewrite IH by (intros y Hy; apply Hf; right; exact Hy). reflexivity.
Qed.

Lemma comprehension_length {A B : Type} (f : A -> result B) (xs : list A)
    (ys : list B) :
  comprehension f xs = Ok ys -> List.length ys = List.length xs.
Proof.
  intros Hrun. symmetry. eapply Forall2_length, comprehension_inv, Hrun.
Qed.

Lemma shrink_loop_length (total_space : Fraction) (minimums : list Z) :
  forall (lengths : list Fraction) (used excess : Fraction) (shrunk : list Fraction),
    shrink_loop total_space minimums lengths used excess = Ok shrunk ->
    List.length shrunk = List.length lengths.
Proof.
  induction minimums as [|minimum minimums IH];
    intros [|length lengths] used excess shrunk Hrun; cbn [shrink_loop] in Hrun;
    try (injection Hrun as <-; reflexivity).
  destruct (Fraction_div length used) as [share|]; [|discriminate].
  cbn [bind] in Hrun. destruct (Qcleb _ 0).
  - injection Hrun as <-. reflexivity.
  - destruct (shrink_loop _ _ _ _ _) as [rest|] eqn:Hrest; [|discriminate].
    cbn [bind] in Hrun. injection Hrun as <-. cbn [List.length].
    f_equal. eapply IH, Hrest.
Qed.

Lemma expand_step_length (total_space used_space : Fraction)
    (lengths expanded : list Fraction) :
  expand_step total_space used_space lengths = Ok expanded ->
  List.length expanded = List.length lengths.
Proof.
  unfold expand_step. destruct (Qcltb 0 _).
  - apply comprehension_length.
  - intros [= <-]. reflexivity.
Qed.

Lemma shrink_step_length (total_space used_space : Fraction)
    (minimums : option (list Z)) (lengths shrunk : list Fraction) :
  shrink_step total_space used_space minimums lengths = Ok shrunk ->
  List.length shrunk = List.length lengths.
Proof.
  unfold shrink_step. intros Hrun.
  assert (Hfinal : forall (ws : list Fraction) (u e : Fraction),
             (if Qcltb 0 e
              then comprehension
                     (fun width => share <- Fraction_div width u ;;
                                   Ok (width - share * e)) ws
              else Ok ws) = Ok shrunk ->
             List.length shrunk = List.length ws).
  { intros ws u e. destruct (Qcltb 0 e).
    - apply comprehension_length.
    - intros [= <-]. reflexivity. }
  destruct minimums as [mins|].
  - destruct (Qcltb 0 (used_space - total_space)) eqn:Hexcess.
    + destruct (shrink_loop _ _ _ _ _) as [ws|] eqn:Hloop; [|discriminate].
      cbn [bind] in Hrun. apply Hfinal in Hrun. rewrite Hrun.
      eapply shrink_loop_length, Hloop.
    + cbn [bind] in Hrun. rewrite Hexcess in Hrun. injection Hrun as <-.
      reflexivity.
  - cbn [bind] in Hrun. apply Hfinal in Hrun. exact Hrun.
Qed.

Lemma all_lengths_length (xs : list (option Fraction)) :
  forall fs : list Fraction,
    all_lengths xs = Some fs -> List.length fs = List.length xs.
Proof.
  induction xs as [|[f|] xs IH]; intros fs Hall; cbn [all_lengths] in Hall;
    try discriminate.
  - injection Hall as <-. reflexivity.
  - destruct (all_lengths xs) as [fs'|]; [|discriminate].
    injection Hall as <-. cbn [List.length]. f_equal. apply IH. reflexivity.
Qed.

Lemma spans_total (gutter : Z) (lengths : list Fraction) :
  forall start : Fraction,
    zsum (map snd (spans (Fraction_of_int gutter) start lengths))
    = (floor (start + qsum lengths) - floor start)%Z.
Proof.
  induction lengths as [|length lengths IH]; intros start; cbn [spans map snd].
  - cbn. rewrite Qcplus_0_r. lia.
  - change (zsum (?x :: ?xs)) with (x + zsum xs)%Z.
    rewrite IH, qsum_cons.
    replace (start + length + Fraction_of_int gutter + qsum lengths)
      with (start + (length + qsum lengths) + Fraction_of_int gutter) by ring.
    rewrite !floor_plus_int. lia.
Qed.

Section WidthFacts.

Context {Scalar : Type} `{ScalarLike Scalar}.
Variables size viewport : Size.

Lemma resolve_by_widths (dimensions : list Scalar) (total gutter : Z)
    (expand shrink : bool) (minimums : option (list Z)) :
  resolve dimensions total gutter size viewport expand shrink minimums =
  widths <- resolved_widths dimensions total gutter size viewport expand shrink
                            minimums ;;
  Ok (spans (Fraction_of_int gutter) 0 widths).
Proof.
  unfold resolve, resolved_widths.
  destruct (resolve_fractions _ _ _ _ _ _) as [fractions|]; [|reflexivity].
  cbn [bind]. destruct (expand || shrink).
  - destruct (redistribute _ _ _ _ _ _) as [widths|]; [|reflexivity].
    cbn [bind]. rewrite build_results_spans. reflexivity.
  - cbn [bind]. rewrite build_results_spans. reflexivity.
Qed.

Lemma resolve_inv (dimensions : list Scalar) (total gutter : Z)
    (expand shrink : bool) (minimums : option (list Z)) (results : list (Z * Z)) :
  resolve dimensions total gutter size viewport expand shrink minimums = Ok results ->
  exists widths : list Fraction,
    resolved_widths dimensions total gutter size viewport expand shrink minimums
    = Ok widths /\
    results = spans (Fraction_of_int gutter) 0 widths.
Proof.
  rewrite resolve_by_widths.
  destruct (resolved_widths _ _ _ _ _ _ _ _) as [widths|]; [|discriminate].
  cbn [bind]. intros [= <-]. exists widths. split; reflexivity.
Qed.

Lemma resolve_fractions_length (dimensions : list Scalar) (total total_gutter : Z)
    (expand_or_shrink : bool) (fractions : list Fraction) :
  resolve_fractions size viewport dimensions total total_gutter expand_or_shrink
  = Ok fractions ->
  List.length fractions = List.length dimensions.
Proof.
  unfold resolve_fractions. destruct (truthy _).
  - destruct (Fraction_div _ _) as [unit|]; [|discriminate].
    cbn [bind]. intros [= <-]. unfold classify. rewrite !length_map. reflexivity.
  - unfold cast_lengths.
    destruct (all_lengths _) as [fs|] eqn:Hall.
    + intros [= <-]. apply all_lengths_length in Hall. rewrite Hall.
      unfold classify. rewrite !length_map. reflexivity.
    + destruct expand_or_shrink; [discriminate|].
      destruct (map snd _) as [|[f|] rest]; discriminate.
Qed.

Lemma redistribute_length (total total_gutter : Z) (expand shrink : bool)
    (minimums : option (list Z)) (lengths widths : list Fraction) :
  redistribute total total_gutter expand shrink minimums lengths = Ok widths ->
  List.length widths = List.length lengths.
Proof.
  unfold redistribute. intros Hrun.
  assert (Hexpand : forall expanded,
             (if expand
              then expand_step (Fraction_of_int (total - total_gutter))
                               (py_sum lengths) lengths
              else Ok lengths) = Ok expanded ->
             List.length expanded = List.length lengths).
  { intros expanded. destruct expand.
    - apply expand_step_length.
    - intros [= <-]. reflexivity. }
  destruct (if expand then _ else _) as [expanded|]; [|discriminate].
  cbn [bind] in Hrun. rewrite <- (Hexpand expanded eq_refl).
  destruct shrink.
  - eapply shrink_step_length, Hrun.
  - injection Hrun as <-. reflexivity.
Qed.

Lemma resolved_widths_length (dimensions : list Scalar) (total gutter : Z)
    (expand shrink : bool) (minimums : option (list Z)) (widths : list Fraction) :
  resolved_widths dimensions total gutter size viewport expand shrink minimums
  = Ok widths ->
  List.length widths = List.length dimensions.
Proof.
  unfold resolved_widths.
  destruct (resolve_fractions _ _ _ _ _ _) as [fractions|] eqn:Hfr; [|discriminate].
  cbn [bind]. apply resolve_fractions_length in Hfr. rewrite <- Hfr.
  destruct (expand || shrink).
  - apply redistribute_length.
  - intros [= <-]. reflexivity.
Qed.

(** X1: Whenever [resolve] returns, it returns one (offset, length) pair per
    dimension; the first offset is 0 and each next offset is the previous
    offset plus the previous length plus the gutter, whatever the flags. *)
Theorem resolve_tiles (dimensions : list Scalar) (total gutter : Z)
    (expand shrink : bool) (minimums : option (list Z)) (results : list (Z * Z)) :
  resolve dimensions total gutter size viewport expand shrink minimums = Ok results ->
  List.length results = List.length dimensions /\
  (forall offset length : Z,
      nth_error results 0 = Some (offset, length) -> offset = 0%Z) /\
  (forall (index : nat) (offset length offset' length' : Z),
      nth_error results index = Some (offset, length) ->
      nth_error results (S index) = Some (offset', length') ->
      offset' = (offset + length + gutter)%Z).
Proof.
  intros Hrun. destruct (resolve_inv _ _ _ _ _ _ _ Hrun) as (widths & Hw & ->).
  split; [|split].
  - rewrite length_spans. eapply resolved_widths_length, Hw.
  - intros offset length. destruct widths; [discriminate|].
    cbn [spans nth_error]. intros [= <- _]. reflexivity.
  - intros index offset length offset' length'. apply spans_adjacent.
Qed.

(** X2: The integer lengths [resolve] returns add up to the floor of the sum of
    the exact widths: flooring the boundaries loses less than one cell over
    the whole row. *)
Theorem resolve_lengths_total (dimensions : list Scalar) (total gutter : Z)
    (expand shrink : bool) (minimums : option (list Z)) (results : list (Z * Z)) :
  resolve dimensions total gutter size viewport expand shrink minimums = Ok results ->
  exists widths : list Fraction,
    resolved_widths dimensions total gutter size viewport expand shrink minimums
    = Ok widths /\
    zsum (map snd results) = floor (qsum widths).
Proof.
  intros Hrun. destruct (resolve_inv _ _ _ _ _ _ _ Hrun) as (widths & Hw & ->).
  exists widths. split; [exact Hw|].
  rewrite spans_total, Qcplus_0_l.
  replace (floor 0) with 0%Z by reflexivity. lia.
Qed.

(** X3: With nothing to resolve, [resolve] returns the empty list for every
    total, gutter and setting of the flags: the divisions by the used space
    are not reached. *)
Theorem resolve_nothing (total gutter : Z) (expand shrink : bool)
    (minimums : option (list Z)) :
  resolve (@nil Scalar) total gutter size viewport expand shrink minimums = Ok [].
Proof.
  unfold resolve, resolve_fractions. cbn [classify map deferred_values flat_map].
  replace (truthy (float_sum [])) with false by reflexivity.
  unfold cast_lengths. cbn [all_lengths bind].
  destruct (expand || shrink); [|reflexivity].
  unfold redistribute, expand_step, shrink_step.
  set (total_space := Fraction_of_int _). set (used_space := py_sum []).
  assert (Hexpanded : (if expand
                       then if Qcltb 0 (total_space - used_space)
                            then comprehension
                                   (fun width => share <- Fraction_div width used_space ;;
                                                 Ok (width + share * (total_space - used_space)))
                                   []
                            else Ok []
                       else Ok []) = Ok []).
  { destruct expand; [destruct (Qcltb 0 _)|]; reflexivity. }
  rewrite Hexpanded. cbn [bind].
  destruct shrink; [|reflexivity].
  destruct minimums as [[|minimum mins]|];
    destruct (Qcltb 0 (used_space - total_space)) eqn:Hexcess;
    cbn [shrink_loop bind py_sum fold_left]; rewrite ?Hexcess;
    try reflexivity;
    destruct (Qcltb 0 (0 - total_space)); reflexivity.
Qed.

Lemma Fraction_div_ok (numerator denominator : Fraction) :
  denominator <> 0 ->
  Fraction_div numerator denominator = Ok (numerator / denominator).
Proof.
  intros Hnz. unfold Fraction_div. rewrite (proj2 (Qceqb_false _ _) Hnz).
  reflexivity.
Qed.

Lemma py_max_zero (x : Fraction) : 0 <= x -> py_max 0 x = x.
Proof.
  intros Hx. unfold py_max. destruct (Qcltb 0 x) eqn:Hlt; [reflexivity|].
  apply Qcltb_false in Hlt. apply Qcle_antisym; assumption.
Qed.

Lemma deferred_values_weights (dimensions : list Scalar) :
  deferred_values (classify size viewport dimensions) = fraction_weights dimensions.
Proof.
  unfold deferred_values, classify, fraction_weights.
  induction dimensions as [|scalar dimensions IH]; [reflexivity|].
  cbn [map flat_map filter]. destruct (is_fraction scalar); cbn [map app];
    rewrite IH; reflexivity.
Qed.

Lemma fixed_lengths_parts (dimensions : list Scalar) :
  fixed_lengths (classify size viewport dimensions) = fixed_parts size viewport dimensions.
Proof.
  unfold fixed_lengths, classify, fixed_parts.
  induction dimensions as [|scalar dimensions IH]; [reflexivity|].
  cbn [map flat_map filter]. destruct (is_fraction scalar); cbn [negb map app];
    rewrite IH; reflexivity.
Qed.

Lemma qsum_shares (unit : Fraction) (dimensions : list Scalar) :
  qsum (map (fun '(scalar, fraction) =>
               match fraction with
               | None => value scalar * unit
               | Some f => f
               end)
            (classify size viewport dimensions))
  = qsum (fixed_parts size viewport dimensions)
    + qsum (fraction_weights dimensions) * unit.
Proof.
  unfold classify, fixed_parts, fraction_weights.
  induction dimensions as [|scalar dimensions IH]; [cbn; ring|].
  cbn [map filter]. destruct (is_fraction scalar); cbn [negb map];
    rewrite !qsum_cons, IH; ring.
Qed.

Lemma qsum_scaled (factor : Fraction) (xs : list Fraction) :
  qsum (map (fun x => x * factor) xs) = qsum xs * factor.
Proof.
  induction xs as [|x xs IH]; [cbn; ring|].
  cbn [map]. rewrite !qsum_cons, IH. ring.
Qed.

Lemma classify_widths (unit : Fraction) (dimensions : list Scalar) :
  map (fun '(scalar, fraction) =>
         match fraction with
         | None => value scalar * unit
         | Some f => f
         end)
      (classify size viewport dimensions)
  = map (fun scalar =>
           if is_fraction scalar then value scalar * unit
           else scalar_resolve scalar size viewport None)
        dimensions.
Proof.
  unfold classify. rewrite map_map. apply map_ext.
  intros scalar. destruct (is_fraction scalar); reflexivity.
Qed.

(** X4: When the float sum of the fraction weights is exact and not zero and
    the fixed scalars fit in the space left by the gutters, the fraction
    scalars share exactly the rest, each by its weight: [resolve] returns,
    for every setting of the flags, the cells of the fixed lengths and of
    weight times one common unit, and the lengths add up to the total less
    the gutters. *)
Theorem resolve_fractions_fill (dimensions : list Scalar) (total gutter : Z)
    (expand shrink : bool) (minimums : option (list Z)) :
  let total_gutter := (gutter * (Z.of_nat (List.length dimensions) - 1))%Z in
  let unit := (Fraction_of_int (total - total_gutter)
               - py_sum (fixed_parts size viewport dimensions))
              / float_sum (fraction_weights dimensions) in
  let widths := map (fun scalar =>
                       if is_fraction scalar then value scalar * unit
                       else scalar_resolve scalar size viewport None)
                    dimensions in
  sums_exactly (fraction_weights dimensions) ->
  float_sum (fraction_weights dimensions) <> 0 ->
  py_sum (fixed_parts size viewport dimensions)
  <= Fraction_of_int (total - total_gutter) ->
  resolve dimensions total gutter size viewport expand shrink minimums
  = Ok (spans (Fraction_of_int gutter) 0 widths) /\
  zsum (map snd (spans (Fraction_of_int gutter) 0 widths))
  = (total - total_gutter)%Z.
Proof.
  intros total_gutter unit widths Hexact Hweights Hfits.
  assert (Hstage : resolve_fractions size viewport dimensions total total_gutter
                                     (expand || shrink) = Ok widths).
  { unfold resolve_fractions.
    rewrite deferred_values_weights, fixed_lengths_parts.
    rewrite (proj2 (truthy_true _) Hweights).
    rewrite py_max_zero by (revert Hfits; to_Q; intros Hfits; lra).
    rewrite Fraction_div_ok by assumption. cbn [bind].
    rewrite classify_widths. reflexivity. }
  assert (Hsum : py_sum widths = Fraction_of_int (total - total_gutter)).
  { rewrite py_sum_qsum. unfold widths. rewrite <- classify_widths, qsum_shares.
    rewrite <- Hexact, <- !py_sum_qsum. unfold unit. field. exact Hweights. }
  assert (Hwidths : resolved_widths dimensions total gutter size viewport
                                    expand shrink minimums = Ok widths).
  { unfold resolved_widths. fold total_gutter. rewrite Hstage. cbn [bind].
    destruct (expand || shrink); [|reflexivity].
    apply redistribute_exact. exact Hsum. }
  split.
  - rewrite resolve_by_widths, Hwidths. reflexivity.
  - rewrite spans_total, Qcplus_0_l, <- py_sum_qsum, Hsum, floor_of_int.
    replace (floor 0) with 0%Z by reflexivity. lia.
Qed.

(** X5: With [expand] set, scalars none of which is a fraction and whose exact
    lengths sum to less than the available space, but not to zero, are all
    scaled by available / used; the lengths returned then add up to the
    total less the gutters, and [shrink] has no effect. *)
Theorem resolve_expand_fills (dimensions : list Scalar) (total gutter : Z)
    (shrink : bool) (minimums : option (list Z)) :
  let total_gutter := (gutter * (Z.of_nat (List.length dimensions) - 1))%Z in
  let available := Fraction_of_int (total - total_gutter) in
  let used := py_sum (exact_lengths size viewport dimensions) in
  Forall (fun scalar => is_fraction scalar = false) dimensions ->
  used <> 0 -> used < available ->
  resolve dimensions total gutter size viewport true shrink minimums
  = Ok (spans (Fraction_of_int gutter) 0
              (map (fun width => width * (available / used))
                   (exact_lengths size viewport dimensions))) /\
  zsum (map snd (spans (Fraction_of_int gutter) 0
                       (map (fun width => width * (available / used))
                            (exact_lengths size viewport dimensions))))
  = (total - total_gutter)%Z.
Proof.
  intros total_gutter available used Hfixed Hused Hshort.
  set (scaled := map (fun width => width * (available / used))
                     (exact_lengths size viewport dimensions)).
  assert (Hexpand : expand_step available used (exact_lengths size viewport dimensions)
                    = Ok scaled).
  { unfold expand_step.
    rewrite (proj2 (Qcltb_true 0 (available - used)))
      by (revert Hshort; to_Q; intros Hshort; lra).
    rewrite (comprehension_map _ (fun width => width * (available / used))).
    - reflexivity.
    - intros width _. rewrite Fraction_div_ok by assumption. cbn [bind].
      f_equal. field. exact Hused. }
  split.
  - rewrite resolve_by_widths. unfold resolved_widths. fold total_gutter.
    rewrite resolve_fractions_fixed by assumption. cbn [bind orb].
    unfold redistribute. fold available. fold used. rewrite Hexpand. cbn [bind].
    destruct shrink; [|reflexivity].
    rewrite shrink_step_fits by (apply Qclt_le_weak; exact Hshort). reflexivity.
  - rewrite spans_total, Qcplus_0_l. unfold scaled. rewrite qsum_scaled.
    fold (exact_lengths size viewport dimensions). rewrite <- py_sum_qsum. fold used.
    replace (used * (available / used)) with available by (field; exact Hused).
    unfold available. rewrite floor_of_int.
    replace (floor 0) with 0%Z by reflexivity. lia.
Qed.

(** X6: With [shrink] set and no minimums, scalars none of which is a fraction
    and whose exact lengths sum to more than the available space are all
    scaled by available / used; the lengths returned add up to the total
    less the gutters, and [expand] has no effect. *)
Theorem resolve_shrink_scales (dimensions : list Scalar) (total gutter : Z)
    (expand : bool) :
  let total_gutter := (gutter * (Z.of_nat (List.length dimensions) - 1))%Z in
  let available := Fraction_of_int (total - total_gutter) in
  let used := py_sum (exact_lengths size viewport dimensions) in
  Forall (fun scalar => is_fraction scalar = false) dimensions ->
  used <> 0 -> available < used ->
  resolve dimensions total gutter size viewport expand true None
  = Ok (spans (Fraction_of_int gutter) 0
              (map (fun width => width * (available / used))
                   (exact_lengths size viewport dimensions))) /\
  zsum (map snd (spans (Fraction_of_int gutter) 0
                       (map (fun width => width * (available / used))
                            (exact_lengths size viewport dimensions))))
  = (total - total_gutter)%Z.
Proof.
  intros total_gutter available used Hfixed Hused Hlong.
  set (scaled := map (fun width => width * (available / used))
                     (exact_lengths size viewport dimensions)).
  assert (Hshrink : shrink_step available used None
                                (exact_lengths size viewport dimensions)
                    = Ok scaled).
  { unfold shrink_step. cbn [bind].
    rewrite (proj2 (Qcltb_true 0 (used - available)))
      by (revert Hlong; to_Q; intros Hlong; lra).
    rewrite (comprehension_map _ (fun width => width * (available / used))).
    - reflexivity.
    - intros width _. rewrite Fraction_div_ok by assumption. cbn [bind].
      f_equal. field. exact Hused. }
  split.
  - rewrite resolve_by_widths. unfold resolved_widths. fold total_gutter.
    rewrite resolve_fractions_fixed by assumption. cbn [bind].
    rewrite orb_true_r.
    unfold redistribute. fold available. fold used.
    rewrite expand_step_full by (apply Qclt_le_weak; exact Hlong).
    destruct expand; cbn [bind]; rewrite Hshrink; reflexivity.
  - rewrite spans_total, Qcplus_0_l. unfold scaled. rewrite qsum_scaled.
    fold (exact_lengths size viewport dimensions). rewrite <- py_sum_qsum. fold used.
    replace (used * (available / used)) with available by (field; exact Hused).
    unfold available. rewrite floor_of_int.
    replace (floor 0) with 0%Z by reflexivity. lia.
Qed.

(** *** Signs *)

Lemma Qc_mult_nonneg (a b : Fraction) : 0 <= a -> 0 <= b -> 0 <= a * b.
Proof.
  intros Ha Hb. to_Q. apply Qmult_le_0_compat; assumption.
Qed.

Lemma Qc_div_nonneg (a b : Fraction) : 0 <= a -> 0 <= b -> 0 <= a / b.
Proof.
  intros Ha Hb. unfold Qcdiv. apply Qc_mult_nonneg; [exact Ha|].
  unfold Qcle in *. unfold Qcinv. rewrite !this_Q2Qc.
  apply Qinv_le_0_compat. exact Hb.
Qed.

Lemma qsum_nonneg (xs : list Fraction) :
  Forall (fun x => 0 <= x) xs -> 0 <= qsum xs.
Proof.
  induction 1 as [|x xs Hx _ IH]; [apply Qcle_refl|].
  rewrite qsum_cons. revert Hx IH. to_Q. intros Hx IH. lra.
Qed.

Lemma py_max_left (a b : Fraction) : a <= py_max a b.
Proof.
  unfold py_max. destruct (Qcltb a b) eqn:Hlt.
  - apply Qclt_le_weak, Qcltb_true, Hlt.
  - apply Qcle_refl.
Qed.

Lemma Fraction_of_int_nonneg (n : Z) : (0 <= n)%Z -> 0 <= Fraction_of_int n.
Proof.
  intros Hn. to_Q. rewrite Zle_Qle in Hn. exact Hn.
Qed.

Lemma floor_monotone (x y : Fraction) : x <= y -> (floor x <= floor y)%Z.
Proof.
  intros Hxy. apply Qfloor_resp_le. exact Hxy.
Qed.

Lemma spans_nonneg (gutter : Z) (lengths : list Fraction) :
  Forall (fun x => 0 <= x) lengths ->
  forall start : Fraction,
    Forall (fun cell : Z * Z => (0 <= snd cell)%Z)
           (spans (Fraction_of_int gutter) start lengths) /\
    ((0 <= gutter)%Z -> 0 <= start ->
     Forall (fun cell : Z * Z => (0 <= fst cell)%Z)
            (spans (Fraction_of_int gutter) start lengths)).
Proof.
  induction 1 as [|length lengths Hlength _ IH]; intros start; cbn [spans].
  - split; constructor.
  - destruct (IH (start + length + Fraction_of_int gutter)) as [IHl IHo]. split.
    + constructor; [|exact IHl]. cbn [snd].
      assert (Hle : (floor start <= floor (start + length))%Z).
      { apply floor_monotone. revert Hlength. to_Q. intros Hlength. lra. }
      lia.
    + intros Hgutter Hstart. constructor.
      * cbn [fst]. change 0%Z with (floor 0). apply floor_monotone. exact Hstart.
      * apply IHo; [exact Hgutter|].
        pose proof (Fraction_of_int_nonneg gutter Hgutter) as Hg.
        revert Hlength Hstart Hg. to_Q. intros Hlength Hstart Hg. lra.
Qed.

Lemma all_lengths_In (xs : list (option Fraction)) :
  forall fs : list Fraction,
    all_lengths xs = Some fs -> forall f, In f fs -> In (Some f) xs.
Proof.
  induction xs as [|[f0|] xs IH]; intros fs Hall f Hf; cbn [all_lengths] in Hall;
    try discriminate.
  - injection Hall as <-. contradiction.
  - destruct (all_lengths xs) as [fs'|]; [|discriminate].
    injection Hall as <-. destruct Hf as [-> | Hf].
    + left. reflexivity.
    + right. eapply IH; [reflexivity | exact Hf].
Qed.

(** The sign condition on the input: weights of fraction scalars and exact
    lengths of the other scalars are not negative. *)
Lemma resolve_fractions_nonneg (dimensions : list Scalar) (total total_gutter : Z)
    (expand_or_shrink : bool) (fractions : list Fraction) :
  Forall (fun scalar => if is_fraction scalar then 0 <= value scalar
                        else 0 <= scalar_resolve scalar size viewport None)
         dimensions ->
  resolve_fractions size viewport dimensions total total_gutter expand_or_shrink
  = Ok fractions ->
  Forall (fun x => 0 <= x) fractions.
Proof.
  intros Hsigns. unfold resolve_fractions.
  destruct (truthy _) eqn:Htruthy.
  - apply truthy_true in Htruthy.
    rewrite Fraction_div_ok by assumption. cbn [bind]. intros [= <-].
    rewrite deferred_values_weights in *.
    set (unit := _ / _).
    assert (Hunit : 0 <= unit).
    { apply Qc_div_nonneg; [apply py_max_left|].
      apply float_sum_nonneg. unfold fraction_weights.
      clear Htruthy unit. induction Hsigns as [|scalar rest Hs _ IH]; [constructor|].
      cbn [filter]. destruct (is_fraction scalar); [|exact IH].
      cbn [map]. constructor; assumption. }
    unfold classify. clearbody unit. clear Htruthy.
    induction Hsigns as [|scalar rest Hs _ IH]; [constructor|].
    cbn [map]. constructor; [|exact IH].
    destruct (is_fraction scalar); [apply Qc_mult_nonneg|]; assumption.
  - unfold cast_lengths. destruct (all_lengths _) as [fs|] eqn:Hall.
    + intros [= <-]. apply Forall_forall. intros f Hf.
      apply (all_lengths_In _ _ Hall) in Hf.
      unfold classify in Hf. rewrite map_map in Hf.
      apply in_map_iff in Hf as (scalar & Heq & Hin).
      rewrite Forall_forall in Hsigns. specialize (Hsigns scalar Hin).
      destruct (is_fraction scalar); [discriminate|].
      cbn [snd] in Heq. injection Heq as <-. exact Hsigns.
    + destruct expand_or_shrink; [discriminate|].
      destruct (map snd _) as [|[f|] rest]; discriminate.
Qed.

Lemma scaled_nonneg (width used available : Fraction) :
  0 <= width -> 0 <= used -> 0 <= available -> 0 <= width * (available / used).
Proof.
  intros Hw Hu Ha. apply Qc_mult_nonneg; [exact Hw|].
  apply Qc_div_nonneg; assumption.
Qed.

Lemma expand_step_nonneg (total_space used_space : Fraction)
    (lengths expanded : list Fraction) :
  0 <= used_space -> Forall (fun x => 0 <= x) lengths ->
  expand_step total_space used_space lengths = Ok expanded ->
  Forall (fun x => 0 <= x) expanded.
Proof.
  intros Hused Hlengths. unfold expand_step.
  destruct (Qcltb 0 _) eqn:Hrem; [|intros [= <-]; exact Hlengths].
  apply Qcltb_true in Hrem. intros Hrun. apply comprehension_inv in Hrun.
  induction Hrun as [|width width' lengths expanded Hwidth _ IH]; [constructor|].
  inversion Hlengths as [|? ? Hw Hrest]; subst.
  constructor; [|apply IH; exact Hrest].
  unfold Fraction_div in Hwidth. destruct (Qceqb used_space 0); [discriminate|].
  cbn [bind] in Hwidth. injection Hwidth as <-.
  pose proof (Qc_mult_nonneg _ _ (Qc_div_nonneg _ _ Hw Hused)
                (Qclt_le_weak _ _ Hrem)) as Hgrow.
  revert Hw Hgrow. generalize (width / used_space * (total_space - used_space)).
  intros grow Hw Hgrow. to_Q. lra.
Qed.

Lemma shrink_loop_nonneg (total_space : Fraction) (minimums : list Z) :
  Forall (fun minimum => (0 <= minimum)%Z) minimums ->
  forall (lengths : list Fraction) (used excess : Fraction) (shrunk : list Fraction),
    Forall (fun x => 0 <= x) lengths ->
    shrink_loop total_space minimums lengths used excess = Ok shrunk ->
    Forall (fun x => 0 <= x) shrunk.
Proof.
  induction 1 as [|minimum minimums Hmin _ IH];
    intros [|length lengths] used excess shrunk Hlengths Hrun;
    cbn [shrink_loop] in Hrun; try (injection Hrun as <-; exact Hlengths).
  destruct (Fraction_div length used) as [share|]; [|discriminate].
  cbn [bind] in Hrun. inversion Hlengths as [|? ? Hl Hrest]; subst.
  assert (Hupdated : 0 <= py_max (Fraction_of_int minimum)
                              (length - py_max share 1 * excess)).
  { eapply Qcle_trans; [apply Fraction_of_int_nonneg, Hmin | apply py_max_left]. }
  destruct (Qcleb _ 0).
  - injection Hrun as <-. constructor; assumption.
  - destruct (shrink_loop _ _ _ _ _) as [rest|] eqn:Hloop; [|discriminate].
    cbn [bind] in Hrun. injection Hrun as <-.
    constructor; [exact Hupdated | eapply IH; eassumption].
Qed.

Lemma final_shrink_nonneg (total_space used : Fraction)
    (lengths shrunk : list Fraction) :
  0 <= total_space -> Forall (fun x => 0 <= x) lengths ->
  (if Qcltb 0 (used - total_space)
   then comprehension
          (fun width => share <- Fraction_div width used ;;
                        Ok (width - share * (used - total_space)))
          lengths
   else Ok lengths) = Ok shrunk ->
  Forall (fun x => 0 <= x) shrunk.
Proof.
  intros Hspace Hlengths.
  destruct (Qcltb 0 _) eqn:Hexcess; [|intros [= <-]; exact Hlengths].
  apply Qcltb_true in Hexcess.
  assert (Hused : 0 <= used) by (revert Hspace Hexcess; to_Q; intros; lra).
  intros Hrun. apply comprehension_inv in Hrun.
  induction Hrun as [|width width' lengths shrunk Hwidth _ IH]; [constructor|].
  inversion Hlengths as [|? ? Hw Hrest]; subst.
  constructor; [|apply IH; exact Hrest].
  unfold Fraction_div in Hwidth. destruct (Qceqb used 0) eqn:Hnz; [discriminate|].
  apply Qceqb_false in Hnz. cbn [bind] in Hwidth. injection Hwidth as <-.
  replace (width - width / used * (used - total_space))
    with (width * (total_space / used)) by (field; exact Hnz).
  apply scaled_nonneg; assumption.
Qed.

Lemma shrink_step_nonneg (total_space used_space : Fraction)
    (minimums : option (list Z)) (lengths shrunk : list Fraction) :
  0 <= total_space ->
  (forall mins, minimums = Some mins -> Forall (fun minimum => (0 <= minimum)%Z) mins) ->
  Forall (fun x => 0 <= x) lengths ->
  shrink_step total_space used_space minimums lengths = Ok shrunk ->
  Forall (fun x => 0 <= x) shrunk.
Proof.
  intros Hspace Hmins Hlengths. unfold shrink_step.
  destruct minimums as [mins|].
  - destruct (Qcltb 0 (used_space - total_space)) eqn:Hexcess.
    + destruct (shrink_loop _ _ _ _ _) as [ws|] eqn:Hloop; [|discriminate].
      cbn [bind]. apply final_shrink_nonneg; [exact Hspace|].
      eapply shrink_loop_nonneg; [apply Hmins; reflexivity | exact Hlengths | exact Hloop].
    + cbn [bind]. rewrite Hexcess. intros [= <-]. exact Hlengths.
  - cbn [bind]. apply final_shrink_nonneg; assumption.
Qed.

(** X7: When the total covers the gutters and no weight, exact length or
    minimum is negative, no length [resolve] returns is negative; when the
    gutter is not negative either, no offset is negative and the offsets do
    not decrease. *)
Theorem resolve_lengths_nonnegative (dimensions : list Scalar) (total gutter : Z)
    (expand shrink : bool) (minimums : option (list Z)) (results : list (Z * Z)) :
  (gutter * (Z.of_nat (List.length dimensions) - 1) <= total)%Z ->
  Forall (fun scalar => if is_fraction scalar then 0 <= value scalar
                        else 0 <= scalar_resolve scalar size viewport None)
         dimensions ->
  (forall mins, minimums = Some mins -> Forall (fun minimum => (0 <= minimum)%Z) mins) ->
  resolve dimensions total gutter size viewport expand shrink minimums = Ok results ->
  Forall (fun cell : Z * Z => (0 <= snd cell)%Z) results /\
  ((0 <= gutter)%Z ->
   Forall (fun cell : Z * Z => (0 <= fst cell)%Z) results /\
   forall (index : nat) (offset length offset' length' : Z),
     nth_error results index = Some (offset, length) ->
     nth_error results (S index) = Some (offset', length') ->
     (offset <= offset')%Z).
Proof.
  intros Hspace Hsigns Hmins Hrun.
  destruct (resolve_inv _ _ _ _ _ _ _ Hrun) as (widths & Hw & ->).
  assert (Hwidths : Forall (fun x => 0 <= x) widths).
  { unfold resolved_widths in Hw.
    destruct (resolve_fractions _ _ _ _ _ _) as [fractions|] eqn:Hfr; [|discriminate].
    cbn [bind] in Hw. apply resolve_fractions_nonneg in Hfr; [|exact Hsigns].
    destruct (expand || shrink); [|injection Hw as <-; exact Hfr].
    unfold redistribute in Hw.
    assert (Havailable : 0 <= Fraction_of_int
                               (total - gutter * (Z.of_nat (List.length dimensions) - 1)))
      by (apply Fraction_of_int_nonneg; lia).
    assert (Hused : 0 <= py_sum fractions)
      by (rewrite py_sum_qsum; apply qsum_nonneg, Hfr).
    destruct (if expand then _ else _) as [expanded|] eqn:Hexpand; [|discriminate].
    cbn [bind] in Hw.
    assert (Hexpanded : Forall (fun x => 0 <= x) expanded).
    { destruct expand.
      - eapply expand_step_nonneg; [exact Hused | exact Hfr | exact Hexpand].
      - injection Hexpand as <-. exact Hfr. }
    destruct shrink; [|injection Hw as <-; exact Hexpanded].
    eapply shrink_step_nonneg; [exact Havailable | exact Hmins | exact Hexpanded | exact Hw]. }
  destruct (spans_nonneg gutter widths Hwidths 0) as [Hl Ho].
  split; [exact Hl|]. intros Hgutter.
  split; [apply Ho; [exact Hgutter | apply Qcle_refl]|].
  intros index offset length offset' length' H1 H2.
  pose proof (spans_adjacent _ _ _ _ _ _ _ _ H1 H2) as Hnext.
  rewrite Forall_forall in Hl.
  pose proof (Hl _ (nth_error_In _ _ H1)) as Hlength. cbn [snd] in Hlength. lia.
Qed.

(** *** When [resolve] returns and when it raises *)









(** X9: Fraction scalars whose weights sum to zero are not resolved: when some
    scalar is a fraction and the float sum of the weights is zero, [resolve]
    raises [TypeError] or [AttributeError] on the placeholder left for it. *)
Theorem resolve_zero_weight_raises (dimensions : list Scalar) (total gutter : Z)
    (expand shrink : bool) (minimums : option (list Z)) :
  Exists (fun scalar => is_fraction scalar = true) dimensions ->
  float_sum (fraction_weights dimensions) = 0 ->
  resolve dimensions total gutter size viewport expand shrink minimums
  = Raise TypeError \/
  resolve dimensions total gutter size viewport expand shrink minimums
  = Raise AttributeError.
Proof.
  intros Hsome Hzero. unfold resolve, resolve_fractions.
  rewrite deferred_values_weights, Hzero.
  replace (truthy 0) with false by reflexivity.
  assert (Hnone : all_lengths (map snd (classify size viewport dimensions)) = None).
  { unfold classify. clear Hzero.
    induction Hsome as [scalar rest Hs | scalar rest _ IH]; cbn [map].
    - rewrite Hs. reflexivity.
    - destruct (is_fraction scalar); cbn [snd all_lengths]; [reflexivity|].
      rewrite IH. reflexivity. }
  unfold cast_lengths. rewrite Hnone.
  destruct (expand || shrink); [left; reflexivity|].
  destruct (map snd _) as [|[f|] rest]; cbn [bind]; auto.
Qed.

(** X10: The divisions by the used space are not guarded: when the exact
    lengths of a non-empty list sum to zero, [resolve] raises
    [ZeroDivisionError] if [expand] is set and space is available, and if
    [shrink] is set and the gutters exceed the total. *)
Theorem resolve_divides_by_zero (dimensions : list Scalar) (total gutter : Z)
    (expand shrink : bool) (minimums : option (list Z)) (fractions : list Fraction) :
  let total_gutter := (gutter * (Z.of_nat (List.length dimensions) - 1))%Z in
  resolve_fractions size viewport dimensions total total_gutter (expand || shrink)
  = Ok fractions ->
  fractions <> [] -> py_sum fractions = 0 ->
  (expand = true /\ (total_gutter < total)%Z) \/
  (shrink = true /\ (total < total_gutter)%Z) ->
  resolve dimensions total gutter size viewport expand shrink minimums
  = Raise ZeroDivisionError.
Proof.
  intros total_gutter Hstage Hne Hzero Hcase.
  unfold resolve. fold total_gutter. rewrite Hstage. cbn [bind].
  destruct fractions as [|width fractions]; [contradiction|].
  assert (Hraise : forall (f : Fraction -> Fraction -> Fraction),
             comprehension (fun w => share <- Fraction_div w 0 ;; Ok (f w share))
                           (width :: fractions) = Raise ZeroDivisionError)
    by reflexivity.
  unfold redistribute. rewrite Hzero.
  set (available := Fraction_of_int (total - total_gutter)).
  destruct Hcase as [[-> Hroom] | [-> Htight]].
  - assert (Hpos : Qcltb 0 (available - 0) = true).
    { apply Qcltb_true. unfold available. to_Q. rewrite Zlt_Qlt in Hroom.
      replace (total - total_gutter)%Z with (total + - total_gutter)%Z by lia.
      rewrite inject_Z_plus, inject_Z_opp. lra. }
    cbn [orb]. unfold expand_step. rewrite Hpos.
    rewrite (Hraise (fun w share => w + share * (available - 0))). reflexivity.
  - assert (Hneg : Qcltb 0 (available - 0) = false).
    { apply Qcltb_false. unfold available. to_Q. rewrite Zlt_Qlt in Htight.
      replace (total - total_gutter)%Z with (total + - total_gutter)%Z by lia.
      rewrite inject_Z_plus, inject_Z_opp. lra. }
    assert (Hexcess : Qcltb 0 (0 - available) = true).
    { apply Qcltb_true. unfold available. to_Q. rewrite Zlt_Qlt in Htight.
      replace (total - total_gutter)%Z with (total + - total_gutter)%Z by lia.
      rewrite inject_Z_plus, inject_Z_opp. lra. }
    rewrite orb_true_r.
    assert (Hexpanded : (if expand
                         then expand_step available 0 (width :: fractions)
                         else Ok (width :: fractions)) = Ok (width :: fractions)).
    { destruct expand; [|reflexivity]. unfold expand_step. rewrite Hneg. reflexivity. }
    rewrite Hexpanded. cbn [bind]. unfold shrink_step. rewrite Hexcess.
    destruct minimums as [[|minimum mins]|]; cbn [shrink_loop bind].
    + rewrite Hzero, Hexcess.
      rewrite (Hraise (fun w share => w - share * (0 - available))). reflexivity.
    + reflexivity.
    + rewrite Hexcess.
      rewrite (Hraise (fun w share => w - share * (0 - available))). reflexivity.
Qed.

(** X11: The pass over the minimums leaves every cell it visits at least as
    long as its minimum and does not touch the others: each entry of the
    result is the entry it had, or is not below its minimum. *)
Theorem shrink_loop_keeps_minimums (total_space : Fraction) (minimums : list Z) :
  forall (lengths : list Fraction) (used excess : Fraction) (shrunk : list Fraction),
    shrink_loop total_space minimums lengths used excess = Ok shrunk ->
    List.length shrunk = List.length lengths /\
    forall (index : nat) (after : Fraction),
      nth_error shrunk index = Some after ->
      nth_error lengths index = Some after \/
      exists minimum : Z,
        nth_error minimums index = Some minimum /\ Fraction_of_int minimum <= after.
Proof.
  induction minimums as [|minimum minimums IH];
    intros [|length lengths] used excess shrunk Hrun;
    pose proof (shrink_loop_length _ _ _ _ _ _ Hrun) as Hlen;
    (split; [exact Hlen|]); cbn [shrink_loop] in Hrun;
    try (injection Hrun as <-; intros index after Hafter; left; exact Hafter).
  destruct (Fraction_div length used) as [share|]; [|discriminate].
  cbn [bind] in Hrun.
  assert (Hhead : forall rest : list Fraction,
             forall after,
               nth_error (py_max (Fraction_of_int minimum)
                                 (length - py_max share 1 * excess) :: rest) 0
               = Some after ->
               exists m, nth_error (minimum :: minimums) 0 = Some m /\
                         Fraction_of_int m <= after).
  { intros rest after [= <-]. exists minimum. split; [reflexivity | apply py_max_left]. }
  destruct (Qcleb _ 0).
  - injection Hrun as <-. intros [|index] after Hafter.
    + right. eapply Hhead, Hafter.
    + left. exact Hafter.
  - destruct (shrink_loop _ _ _ _ _) as [rest|] eqn:Hloop; [|discriminate].
    cbn [bind] in Hrun. injection Hrun as <-. intros [|index] after Hafter.
    + right. eapply Hhead, Hafter.
    + cbn [nth_error] in Hafter |- *.
      destruct (IH _ _ _ _ Hloop) as [_ Hrest]. exact (Hrest index after Hafter).
Qed.

End WidthFacts.

(** ** Further properties of [resolve_fraction_unit] *)

Section UnitFacts.

Context {Scalar : Type} `{ScalarLike Scalar}.
Variables size viewport_size : Size.

Local Abbreviation for_loop' := (for_loop size viewport_size).
Local Abbreviation clamp_of' := (clamp_of size viewport_size).
Local Abbreviation slot_after' := (slot_after size viewport_size).
Local Abbreviation space_taken' := (space_taken size viewport_size).
Local Abbreviation weight_taken' := (weight_taken size viewport_size).
Local Abbreviation is_clamped' := (is_clamped size viewport_size).

Lemma map_snd_combine {A B : Type} (xs : list A) :
  forall ys : list B,
    List.length xs = List.length ys -> map snd (combine xs ys) = ys.
Proof.
  induction xs as [|x xs IH]; intros [|y ys] Hlen; try discriminate; [reflexivity|].
  injection Hlen as Hlen. cbn [combine map snd]. rewrite IH by assumption.
  reflexivity.
Qed.

(** A pass that fixes nothing leaves the state as it was. *)
Lemma quiet_pass (u : Fraction) (z : list (item Scalar * option Fraction)) :
  existsb (is_clamped' u) z = false ->
  qsum (map (space_taken' u) z) = 0 /\
  qsum (map (weight_taken' u) z) = 0 /\
  map (slot_after' u) z = map snd z.
Proof.
  induction z as [|[[[scalar min_value] max_value] slot] z IH]; intros Hquiet.
  - repeat split.
  - cbn [existsb] in Hquiet. apply orb_false_elim in Hquiet as [Hhead Htail].
    destruct (IH Htail) as (Hs & Hw & Hslots).
    cbn [map]. rewrite !qsum_cons, Hs, Hw, Hslots.
    unfold is_clamped in Hhead. unfold space_taken, weight_taken, slot_after.
    cbn [snd]. destruct (clamp_of' u _) eqn:Hclamp; [discriminate|].
    split; [ring|]. split; [ring|].
    destruct slot; reflexivity.
Qed.

Lemma for_loop_quiet (u : Fraction) (items : list (item Scalar))
    (slots : list (option Fraction)) (space fraction : Fraction) :
  List.length items = List.length slots ->
  existsb (is_clamped' u) (combine items slots) = false ->
  for_loop' u items (mkState slots space fraction) false
  = (mkState slots space fraction, false).
Proof.
  intros Hlen Hquiet. rewrite for_loop_closed by assumption.
  destruct (quiet_pass u _ Hquiet) as (-> & -> & ->).
  rewrite Hquiet, map_snd_combine by assumption.
  cbn [orb]. f_equal. f_equal; ring.
Qed.

(** The loop ends with no weight left or at a fixed point of the pass. *)
Lemma while_loop_fixed_point (items : list (item Scalar)) :
  forall (fuel : nat) (state final : loop_state) (rounds : nat),
    List.length items = List.length (resolved state) ->
    while_loop fuel size viewport_size items state = Some (final, rounds) ->
    List.length items = List.length (resolved final) /\
    (0 < remaining_fraction final ->
     existsb (is_clamped' (remaining_space final / remaining_fraction final))
             (combine items (resolved final)) = false).
Proof.
  induction fuel as [|fuel IH]; intros [slots space fraction] final rounds Hlen Hrun;
    cbn [resolved remaining_space remaining_fraction while_loop] in *.
  - destruct (Qcltb 0 fraction) eqn:Hpos; [discriminate|].
    injection Hrun as <- <-. split; [exact Hlen|].
    cbn [remaining_fraction]. intros Hlt. apply Qcltb_true in Hlt. congruence.
  - destruct (Qcltb 0 fraction) eqn:Hpos.
    + destruct (existsb (is_clamped' (space / fraction)) (combine items slots))
        eqn:Hchanged.
      * rewrite for_loop_closed in Hrun by assumption. rewrite Hchanged in Hrun.
        cbn [orb] in Hrun.
        destruct (while_loop fuel _ _ items _) as [[final' rounds']|] eqn:Hrest;
          [|discriminate].
        injection Hrun as <- <-. eapply IH; [|exact Hrest].
        cbn [resolved]. symmetry. apply length_slot_after. exact Hlen.
      * rewrite for_loop_quiet in Hrun by assumption.
        injection Hrun as <- <-. split; [exact Hlen|].
        intros _. exact Hchanged.
    + injection Hrun as <- <-. split; [exact Hlen|].
      cbn [remaining_fraction]. intros Hlt. apply Qcltb_true in Hlt. congruence.
Qed.

Lemma slot_after_bounds (u : Fraction) (items : list (item Scalar)) :
  forall slots : list (option Fraction),
    fixed_to_bounds items slots ->
    fixed_to_bounds items (map (slot_after' u) (combine items slots)).
Proof.
  unfold fixed_to_bounds.
  induction items as [|[[scalar min_value] max_value] items IH];
    intros [|slot slots] Hfixed; cbn [combine map] in *; try constructor.
  - inversion Hfixed as [|? ? Hhead Htail]; subst.
    unfold slot_after. cbn [snd clamp_of]. destruct slot as [bound|]; [exact Hhead|].
    destruct (violated_bound min_value max_value _) as [bound|] eqn:Hv; [|exact I].
    destruct (violated_bound_inv _ _ _ _ Hv) as [[Hb _] | [Hb _]]; auto.
  - inversion Hfixed; subst. apply IH. assumption.
Qed.

Lemma while_loop_bounds (items : list (item Scalar)) :
  forall (fuel : nat) (state final : loop_state) (rounds : nat),
    List.length items = List.length (resolved state) ->
    fixed_to_bounds items (resolved state) ->
    while_loop fuel size viewport_size items state = Some (final, rounds) ->
    fixed_to_bounds items (resolved final).
Proof.
  induction fuel as [|fuel IH];
    intros [slots space fraction] final rounds Hlen Hfixed Hrun;
    cbn [resolved remaining_space remaining_fraction while_loop] in *.
  - destruct (Qcltb 0 fraction); [discriminate|]. injection Hrun as <- <-.
    exact Hfixed.
  - destruct (Qcltb 0 fraction); [|injection Hrun as <- <-; exact Hfixed].
    rewrite for_loop_closed in Hrun by assumption. cbn [orb] in Hrun.
    destruct (existsb _ _).
    + destruct (while_loop fuel _ _ items _) as [[final' rounds']|] eqn:Hrest;
        [|discriminate].
      injection Hrun as <- <-. eapply IH; [| |exact Hrest]; cbn [resolved].
      * symmetry. apply length_slot_after. exact Hlen.
      * apply slot_after_bounds. exact Hfixed.
    + injection Hrun as <- <-. cbn [resolved]. apply slot_after_bounds. exact Hfixed.
Qed.

Lemma violated_bound_none (min_value max_value : option Fraction)
    (resolved_scalar : Fraction) :
  violated_bound min_value max_value resolved_scalar = None ->
  within_bounds min_value max_value resolved_scalar.
Proof.
  unfold violated_bound, within_bounds. intros Hv.
  assert (Hmax : match max_value with
                 | Some mx => if Qcltb mx resolved_scalar then Some mx else None
                 | None => None
                 end = None ->
                 match max_value with
                 | Some mx => resolved_scalar <= mx
                 | None => True
                 end).
  { destruct max_value as [mx|]; [|trivial].
    destruct (Qcltb mx resolved_scalar) eqn:Hlt; [discriminate|].
    intros _. apply Qcltb_false. exact Hlt. }
  destruct min_value as [mn|].
  - destruct (Qcltb resolved_scalar mn) eqn:Hlt; [discriminate|].
    split; [apply Qcltb_false; exact Hlt | apply Hmax; exact Hv].
  - split; [exact I | apply Hmax; exact Hv].
Qed.

(** With positive weights, the weight of the unresolved entries is at least
    that of any one of them. *)
Lemma unresolved_weight_covers (items : list (item Scalar)) :
  forall (slots : list (option Fraction)) (scalar : Scalar)
         (min_value max_value : option Fraction),
    Forall (fun '(scalar, _, _) => 0 < value scalar) items ->
    In ((scalar, min_value, max_value), None) (combine items slots) ->
    value scalar <= unresolved_weight (combine items slots).
Proof.
  unfold unresolved_weight.
  assert (Hnonneg : forall (its : list (item Scalar)) (slots : list (option Fraction)),
             Forall (fun '(scalar, _, _) => 0 < value scalar) its ->
             0 <= qsum (map (fun e : item Scalar * option Fraction =>
                               match snd e with
                               | None => weight_of e
                               | Some _ => 0
                               end) (combine its slots))).
  { intros its slots Hpos. apply qsum_nonneg. apply Forall_forall.
    intros w Hw. apply in_map_iff in Hw as ([[[scalar mn] mx] slot] & <- & Hin).
    cbn [snd weight_of]. destruct slot; [apply Qcle_refl|].
    apply in_combine_l in Hin. rewrite Forall_forall in Hpos.
    apply Qclt_le_weak. exact (Hpos _ Hin). }
  induction items as [|[[scalar0 min0] max0] items IH];
    intros [|slot slots] scalar min_value max_value Hpos Hin;
    cbn [combine] in Hin; try contradiction.
  inversion Hpos as [|? ? Hhead Htail]; subst.
  cbn [combine map snd weight_of]. rewrite qsum_cons.
  destruct Hin as [Heq | Hin].
  - injection Heq as -> -> -> ->.
    pose proof (Hnonneg items slots Htail) as Hrest.
    revert Hrest.
    match goal with |- context [qsum ?l] => generalize (qsum l) end.
    intros rest Hrest. to_Q. lra.
  - pose proof (IH slots _ _ _ Htail Hin) as Hrest.
    assert (Hslot : 0 <= match slot with None => value scalar0 | Some _ => 0 end).
    { destruct slot; [apply Qcle_refl | apply Qclt_le_weak; exact Hhead]. }
    revert Hslot Hrest.
    match goal with |- context [qsum ?l] => generalize (qsum l) end.
    generalize (match slot with None => value scalar0 | Some _ => 0 end).
    intros head rest Hslot Hrest. to_Q. lra.
Qed.

Lemma resolve_list_axis (resolve_dimension : Dimension)
    (widget_styles : list (RenderStyles Scalar)) :
  resolve_list size viewport_size resolve_dimension widget_styles =
  map (fun styles =>
         (axis_scalar resolve_dimension styles,
          resolve_scalar size viewport_size (axis_minimum resolve_dimension styles) 1,
          resolve_scalar size viewport_size (axis_maximum resolve_dimension styles) 1))
      (filter in_flow widget_styles).
Proof.
  destruct resolve_dimension; reflexivity.
Qed.

(** X12: With weights that are all positive, and a float sum of the weights
    that falls short of their exact sum by less than any one weight, the
    unit [resolve_fraction_unit] returns settles every entry: an entry is
    either fixed to one of its own bounds, or it is unresolved and its
    scalar, resolved at the returned unit, lies within its bounds. *)
Theorem resolve_fraction_unit_settles (widget_styles : list (RenderStyles Scalar))
    (space : Fraction) (resolve_dimension : Dimension) :
  let items := resolve_list size viewport_size resolve_dimension widget_styles in
  space <> 0 -> widget_styles <> [] ->
  Forall (fun '(scalar, _, _) => 0 < value scalar) items ->
  Forall (fun '(scalar, _, _) =>
            qsum (item_weights items) - float_sum (item_weights items)
            < value scalar)
         items ->
  exists (unit : Fraction) (final : loop_state) (rounds : nat),
    resolve_fraction_unit widget_styles size viewport_size space resolve_dimension
    = Some unit /\
    fraction_loop widget_styles size viewport_size space resolve_dimension
    = Some (final, rounds) /\
    forall (index : nat) (scalar : Scalar) (min_value max_value : option Fraction),
      nth_error items index = Some (scalar, min_value, max_value) ->
      (nth_error (resolved final) index = Some None /\
       within_bounds min_value max_value
                     (scalar_resolve scalar size viewport_size (Some unit))) \/
      (exists bound : Fraction,
          nth_error (resolved final) index = Some (Some bound) /\
          (min_value = Some bound \/ max_value = Some bound)).
Proof.
  intros items Hspace Hne Hweights Hshort.
  destruct (fraction_loop_returns size viewport_size widget_styles space
                                  resolve_dimension)
    as (final & rounds & Hloop & _ & _ & Hlen & Hres).
  fold items in Hlen, Hres.
  assert (Hrun : while_loop (S (List.length items)) size viewport_size items
                            (initial_state items space) = Some (final, rounds))
    by exact Hloop.
  pose proof (initial_state_slots items space) as [Hstart _].
  destruct (while_loop_fixed_point items _ _ _ _ Hstart Hrun) as [_ Hfix].
  assert (Hbounds : fixed_to_bounds items (resolved final)).
  { eapply while_loop_bounds; [exact Hstart | | exact Hrun].
    unfold fixed_to_bounds, initial_state. cbn [resolved].
    rewrite combine_initial_slots. apply Forall_forall.
    intros e He. apply in_map_iff in He as ([[scalar mn] mx] & <- & _). exact I. }
  unfold pool_residue in Hres.
  destruct final as [slots space' fraction'].
  cbn [resolved remaining_space remaining_fraction] in *.
  exists (if Qcltb 0 fraction' then space' / fraction' else space),
         (mkState slots space' fraction'), rounds.
  split; [|split; [exact Hloop|]].
  - unfold resolve_fraction_unit. rewrite guard_passed, Hloop by assumption.
    reflexivity.
  - intros index scalar min_value max_value Hitem. cbn [resolved].
    destruct (nth_error slots index) as [slot|] eqn:Hslot.
    2:{ apply nth_error_None in Hslot.
        assert (Hsome : nth_error items index <> None) by congruence.
        apply nth_error_Some in Hsome. lia. }
    assert (Hpair : In ((scalar, min_value, max_value), slot) (combine items slots)).
    { apply nth_error_In with (n := index).
      clear -Hitem Hslot. revert slots index Hitem Hslot.
      induction items as [|entry items' IH]; intros [|s slots] [|index] Hitem Hslot;
        cbn [nth_error combine] in *; try discriminate.
      - injection Hitem as ->. injection Hslot as ->. reflexivity.
      - apply IH; assumption. }
    destruct slot as [bound|].
    + right. exists bound. split; [reflexivity|].
      unfold fixed_to_bounds in Hbounds. rewrite Forall_forall in Hbounds.
      exact (Hbounds _ Hpair).
    + left. split; [reflexivity|].
      assert (Hpos : 0 < fraction').
      { pose proof (unresolved_weight_covers items slots _ _ _ Hweights Hpair)
          as Hcovers.
        rewrite Forall_forall in Hshort.
        pose proof (Hshort _ (nth_error_In _ _ Hitem)) as Hless.
        cbn beta iota in Hless.
        revert Hres Hcovers Hless.
        generalize (unresolved_weight (combine items slots)).
        generalize (float_sum (item_weights items)).
        generalize (qsum (item_weights items)). generalize (value scalar).
        intros w total rounded rest Hres Hcovers Hless.
        replace fraction' with (rounded - total + rest) by (rewrite <- Hres; ring).
        clear Hres. to_Q. lra. }
      rewrite (proj2 (Qcltb_true _ _) Hpos).
      specialize (Hfix Hpos).
      assert (Hquiet : is_clamped' (space' / fraction')
                         ((scalar, min_value, max_value), None) = false).
      { destruct (is_clamped' _ _) eqn:Hc; [|reflexivity].
        assert (Hex : existsb (is_clamped' (space' / fraction')) (combine items slots)
                      = true)
          by (apply existsb_exists; eexists; split; [exact Hpair | exact Hc]).
        congruence. }
      unfold is_clamped in Hquiet. cbn [clamp_of] in Hquiet.
      destruct (violated_bound min_value max_value _) eqn:Hv; [discriminate|].
      apply violated_bound_none. exact Hv.
Qed.

(** X13: Without bounds on the flowing widget styles, one round settles the unit:
    it is the remaining space divided by the float sum of the weights when
    that sum is positive, and the remaining space itself otherwise. *)
Theorem resolve_fraction_unit_unbounded (widget_styles : list (RenderStyles Scalar))
    (space : Fraction) (resolve_dimension : Dimension) :
  let weight :=
    float_sum (map (fun styles => value (axis_scalar resolve_dimension styles))
                   (filter in_flow widget_styles)) in
  space <> 0 -> widget_styles <> [] ->
  Forall (fun styles =>
            in_flow styles = true ->
            axis_minimum resolve_dimension styles = None /\
            axis_maximum resolve_dimension styles = None)
         widget_styles ->
  resolve_fraction_unit widget_styles size viewport_size space resolve_dimension
  = Some (if Qcltb 0 weight then space / weight else space).
Proof.
  intros weight Hspace Hne Hfree.
  unfold resolve_fraction_unit. rewrite guard_passed by assumption.
  unfold fraction_loop. rewrite resolve_list_axis.
  set (items := map _ (filter in_flow widget_styles)).
  assert (Hweight : float_sum (map (fun '(scalar, _, _) => value scalar) items)
                    = weight).
  { unfold items, weight. rewrite map_map. reflexivity. }
  assert (Hquiet : forall u slots,
             existsb (is_clamped' u) (combine items slots) = false).
  { intros u slots. destruct (existsb _ _) eqn:Hex; [|reflexivity].
    apply existsb_exists in Hex as ([[[scalar mn] mx] slot] & Hin & Hc).
    apply in_combine_l in Hin. unfold items in Hin.
    apply in_map_iff in Hin as (styles & Heq & Hin).
    apply filter_In in Hin as [Hin Hflow].
    rewrite Forall_forall in Hfree. destruct (Hfree styles Hin Hflow) as [Hmin Hmax].
    rewrite Hmin, Hmax in Heq. cbn [resolve_scalar] in Heq.
    injection Heq as <- <- <-.
    unfold is_clamped in Hc. cbn [clamp_of violated_bound] in Hc.
    destruct slot; discriminate. }
  unfold initial_state. rewrite Hweight. clearbody items weight.
  cbn [while_loop remaining_fraction remaining_space].
  destruct (Qcltb 0 weight) eqn:Hpos; [|rewrite Hpos; reflexivity].
  rewrite for_loop_quiet.
  - rewrite Hpos. reflexivity.
  - rewrite repeat_length. reflexivity.
  - apply Hquiet.
Qed.

(** X14: Widget styles that overlay the screen do not take part: as long as some
    style is in the flow, leaving the overlays out of the input gives the
    same unit. *)
Theorem resolve_fraction_unit_ignores_overlays
    (widget_styles : list (RenderStyles Scalar)) (space : Fraction)
    (resolve_dimension : Dimension) :
  filter in_flow widget_styles <> [] ->
  resolve_fraction_unit (filter in_flow widget_styles) size viewport_size space
                        resolve_dimension
  = resolve_fraction_unit widget_styles size viewport_size space resolve_dimension.
Proof.
  intros Hflow.
  assert (Hidem : filter in_flow (filter in_flow widget_styles)
                  = filter in_flow widget_styles).
  { clear Hflow. induction widget_styles as [|styles rest IH]; [reflexivity|].
    cbn [filter]. destruct (in_flow styles) eqn:Hs; cbn [filter];
      rewrite ?Hs, IH; reflexivity. }
  unfold resolve_fraction_unit, fraction_loop.
  rewrite !resolve_list_axis, Hidem.
  destruct widget_styles as [|styles rest]; [contradiction|].
  destruct (filter in_flow (styles :: rest)); [contradiction|]. reflexivity.
Qed.

Lemma while_loop_space (items : list (item Scalar)) :
  forall (fuel : nat) (state final : loop_state) (rounds : nat),
    List.length items = List.length (resolved state) ->
    while_loop fuel size viewport_size items state = Some (final, rounds) ->
    remaining_space final + fixed_space (resolved final)
    = remaining_space state + fixed_space (resolved state).
Proof.
  induction fuel as [|fuel IH]; intros [slots space fraction] final rounds Hlen Hrun;
    cbn [resolved remaining_space remaining_fraction while_loop] in *.
  - destruct (Qcltb 0 fraction); [discriminate|]. injection Hrun as <- <-.
    reflexivity.
  - destruct (Qcltb 0 fraction); [|injection Hrun as <- <-; reflexivity].
    rewrite for_loop_closed in Hrun by assumption. cbn [orb] in Hrun.
    set (u := space / fraction) in *.
    assert (Hstep : space - qsum (map (space_taken' u) (combine items slots))
                    + fixed_space (map (slot_after' u) (combine items slots))
                    = space + fixed_space slots).
    { rewrite fixed_space_after by assumption. ring. }
    destruct (existsb _ _).
    + destruct (while_loop fuel _ _ items _) as [[final' rounds']|] eqn:Hrest;
        [|discriminate].
      injection Hrun as <- <-. rewrite <- Hstep.
      apply IH in Hrest.
      * exact Hrest.
      * cbn [resolved]. symmetry. apply length_slot_after. exact Hlen.
    + injection Hrun as <- <-. cbn [resolved remaining_space]. exact Hstep.
Qed.

Lemma fixed_space_initial (n : nat) : fixed_space (repeat None n) = 0.
Proof.
  unfold fixed_space. induction n as [|n IH]; [reflexivity|].
  cbn [repeat map]. rewrite qsum_cons, IH. ring.
Qed.

(** X15: When the loop ends with weight left in the pool, the bounds of the
    fixed entries plus the returned unit times the weight left in the pool
    make the remaining space the call was given.  The weight left in the
    pool is the weight of the unresolved entries plus what rounding added to
    the float sum of all the weights; when that sum is exact, the space is
    given out exactly to the fixed and the unresolved entries. *)
Theorem resolve_fraction_unit_distributes
    (widget_styles : list (RenderStyles Scalar)) (space : Fraction)
    (resolve_dimension : Dimension) (final : loop_state) (rounds : nat) :
  let items := resolve_list size viewport_size resolve_dimension widget_styles in
  space <> 0 -> widget_styles <> [] ->
  fraction_loop widget_styles size viewport_size space resolve_dimension
  = Some (final, rounds) ->
  0 < remaining_fraction final ->
  exists unit : Fraction,
    resolve_fraction_unit widget_styles size viewport_size space resolve_dimension
    = Some unit /\
    unit * remaining_fraction final + fixed_space (resolved final) = space /\
    remaining_fraction final
    = unresolved_weight (combine items (resolved final))
      + (float_sum (item_weights items) - qsum (item_weights items)) /\
    (sums_exactly (item_weights items) ->
     unit * unresolved_weight (combine items (resolved final))
     + fixed_space (resolved final) = space).
Proof.
  intros items Hspace Hne Hloop Hpos.
  destruct (fraction_loop_returns size viewport_size widget_styles space
                                  resolve_dimension)
    as (final' & rounds' & Hrun & _ & _ & _ & Hres).
  rewrite Hloop in Hrun. injection Hrun as <- <-. fold items in Hres.
  pose proof (initial_state_slots items space) as [Hstart _].
  pose proof (while_loop_space items _ _ _ _ Hstart Hloop) as Hconserved.
  unfold initial_state in Hconserved.
  cbn [resolved remaining_space] in Hconserved.
  rewrite fixed_space_initial in Hconserved.
  unfold pool_residue in Hres.
  destruct final as [slots space' fraction'].
  cbn [resolved remaining_space remaining_fraction] in *.
  assert (Hgiven : space' / fraction' * fraction' + fixed_space slots = space).
  { replace (space' / fraction' * fraction') with space'.
    - rewrite Hconserved. ring.
    - field. intros Hz. rewrite Hz in Hpos. discriminate Hpos. }
  assert (Hleft : fraction' = unresolved_weight (combine items slots)
                              + (float_sum (item_weights items)
                                 - qsum (item_weights items))).
  { rewrite <- Hres. ring. }
  exists (space' / fraction'). split; [|split; [exact Hgiven | split; [exact Hleft|]]].
  - unfold resolve_fraction_unit. rewrite guard_passed, Hloop by assumption.
    rewrite (proj2 (Qcltb_true _ _) Hpos). reflexivity.
  - intros Hexact. unfold sums_exactly in Hexact.
    replace (unresolved_weight (combine items slots)) with fraction'; [exact Hgiven|].
    rewrite Hleft at 1. rewrite Hexact. ring.
Qed.

End UnitFacts.

(** ** [resolve_box_models] *)

Section BoxFacts.

Context {Scalar : Type} `{ScalarLike Scalar}.
Context {Widget BoxModel : Type} `{WidgetLike Scalar Widget BoxModel}.
Variable Size_sub : Size -> Size -> Size.
Variables size viewport_size : Size.


Lemma resolve_box_models_unfold (dimensions : list (option Scalar))
    (widgets : list Widget) (margin : Size) (resolve_dimension : Dimension)
    (greedy : bool) :
  resolve_box_models Size_sub dimensions widgets size viewport_size margin
                     resolve_dimension greedy =
  let box_models := fixed_box_models dimensions widgets size viewport_size greedy in
  match all_box_models box_models with
  | Some models => Some models
  | None =>
      match resolve_fraction_unit
              (fraction_styles resolve_dimension widgets) size viewport_size
              (Fraction_of_int
                 (remaining_for resolve_dimension dimensions widgets size
                                viewport_size margin greedy))
              resolve_dimension with
      | Some fraction_unit =>
          let fractions :=
            fractions_for resolve_dimension fraction_unit (Size_sub size margin) in
          Some (complete_box_models size viewport_size (fst fractions)
                                    (snd fractions) greedy widgets box_models)
      | None => None
      end
  end.
Proof.
  unfold resolve_box_models. cbn zeta.
  destruct (all_box_models _); [reflexivity|].
  destruct resolve_dimension; reflexivity.
Qed.

Lemma complete_fixed (greedy : bool) (fractions : Fraction * Fraction)
    (dimensions : list (option Scalar)) :
  forall widgets : list Widget,
    complete_box_models size viewport_size (fst fractions) (snd fractions) greedy
      widgets (fixed_box_models dimensions widgets size viewport_size greedy)
    = map (placed size viewport_size greedy fractions)
          (combine dimensions
                   (combine widgets (map Widget_margin_totals widgets))).
Proof.
  unfold complete_box_models, fixed_box_models.
  induction dimensions as [|dimension dimensions IH]; intros [|widget widgets];
    cbn [map combine]; try reflexivity.
  rewrite IH. f_equal. unfold placed. destruct (deferred dimension); reflexivity.
Qed.

Lemma all_box_models_placed (greedy : bool) (fractions : Fraction * Fraction)
    (entries : list (option Scalar * (Widget * (Z * Z)))) :
  forall models : list BoxModel,
    all_box_models
      (map (fun '(_dimension, (widget, widget_margins)) =>
              if deferred _dimension then None
              else Some (own_box_model size viewport_size greedy widget
                                       widget_margins))
           entries) = Some models ->
    models = map (placed size viewport_size greedy fractions) entries.
Proof.
  induction entries as [|[dimension [widget margins]] entries IH];
    intros models Hall; cbn [map all_box_models] in Hall.
  - injection Hall as <-. reflexivity.
  - destruct (deferred dimension) eqn:Hd; [discriminate|].
    destruct (all_box_models _) as [rest|] eqn:Hrest; [|discriminate].
    injection Hall as <-. cbn [map]. f_equal.
    + unfold placed. rewrite Hd. reflexivity.
    + apply IH. reflexivity.
Qed.

(** The result for the unit that [resolve_fraction_unit] gives. *)
Lemma resolve_box_models_with_unit (dimensions : list (option Scalar))
    (widgets : list Widget) (margin : Size) (resolve_dimension : Dimension)
    (greedy : bool) (fraction_unit : Fraction) :
  resolve_fraction_unit
    (fraction_styles resolve_dimension widgets) size viewport_size
    (Fraction_of_int
       (remaining_for resolve_dimension dimensions widgets size viewport_size
                      margin greedy))
    resolve_dimension = Some fraction_unit ->
  resolve_box_models Size_sub dimensions widgets size viewport_size margin
                     resolve_dimension greedy
  = Some (map (placed size viewport_size greedy
                      (fractions_for resolve_dimension fraction_unit
                                     (Size_sub size margin)))
              (combine dimensions
                       (combine widgets (map Widget_margin_totals widgets)))).
Proof.
  intros Hunit. rewrite resolve_box_models_unfold. cbn zeta.
  destruct (all_box_models _) as [models|] eqn:Hall.
  - f_equal. unfold fixed_box_models in Hall.
    eapply all_box_models_placed, Hall.
  - rewrite Hunit. f_equal. apply complete_fixed.
Qed.


(** X17: When the box models already there leave no room along the dimension,
    or no flowing style has a fraction along it, the widgets whose
    dimension is a fraction are sized with a unit of 1. *)
Theorem resolve_box_models_default_unit (dimensions : list (option Scalar))
    (widgets : list Widget) (margin : Size) (resolve_dimension : Dimension)
    (greedy : bool) :
  remaining_for resolve_dimension dimensions widgets size viewport_size margin
                greedy = 0%Z \/
  fraction_styles resolve_dimension widgets = [] ->
  resolve_box_models Size_sub dimensions widgets size viewport_size margin
                     resolve_dimension greedy
  = Some (map (placed size viewport_size greedy
                      (fractions_for resolve_dimension 1 (Size_sub size margin)))
              (combine dimensions
                       (combine widgets (map Widget_margin_totals widgets)))).
Proof.
  intros Hdefault. apply resolve_box_models_with_unit.
  unfold resolve_fraction_unit. destruct Hdefault as [-> | ->].
  - reflexivity.
  - rewrite orb_true_r. reflexivity.
Qed.

End BoxFacts.

(** ** Evaluations on concrete inputs *)

Lemma resolve_fraction_unit_default_witness :
  (Fraction_of_int 0 = 0 \/ [unbounded] = []) /\
  resolve_fraction_unit [unbounded] container container (Fraction_of_int 0) Width
  = Some 1.
Proof.
  split.
  - left. apply Qc_is_canon. reflexivity.
  - apply resolve_fraction_unit_default. left. apply Qc_is_canon. reflexivity.
Defined.

Lemma all_overlay_returns_remaining_space_witness :
  [overlaid] <> [] /\
  Forall (fun styles => overlay styles = "screen"%string) [overlaid] /\
  Fraction_of_int 10 <> 0 /\
  resolve_fraction_unit [overlaid] container container (Fraction_of_int 10) Height
  = Some (Fraction_of_int 10).
Proof.
  assert (H1 : [overlaid] <> []) by discriminate.
  assert (H2 : Forall (fun styles => overlay styles = "screen"%string) [overlaid])
    by (repeat constructor).
  assert (H3 : Fraction_of_int 10 <> 0) by discriminate.
  split; [exact H1|]. split; [exact H2|]. split; [exact H3|].
  apply (all_overlay_returns_remaining_space container container
           [overlaid] (Fraction_of_int 10) Height H1 H2 H3).
Defined.

Lemma all_clamped_returns_initial_space_witness :
  let items := resolve_list container container Width [bounded_below] in
  float_sum (item_weights items) <= qsum (item_weights items) /\
  exists (final : loop_state) (rounds : nat),
    fraction_loop [bounded_below] container container (Fraction_of_int 10) Width
    = Some (final, rounds) /\
    Forall (fun slot => slot <> None) (resolved final) /\
    resolve_fraction_unit [bounded_below] container container
                          (Fraction_of_int 10) Width
    = Some (Fraction_of_int 10).
Proof.
  intros items.
  assert (Hsum : float_sum (item_weights items) <= qsum (item_weights items))
    by (vm_compute; discriminate).
  split; [exact Hsum|].
  destruct (all_clamped_returns_initial_space container container)
    as [Hgeneral Hsingle].
  destruct (Hsingle (FractionWeight 1) (CellCount 20) bounded_below)
    as (final & Hrun & Hslots & _ & _).
  - reflexivity.
  - intros u. reflexivity.
  - apply Qc_is_canon. reflexivity.
  - reflexivity.
  - reflexivity.
  - discriminate.
  - assert (Hall : Forall (fun slot : option Fraction => slot <> None) (resolved final)).
    { rewrite Hslots. repeat constructor. discriminate. }
    exists final, 1%nat. split; [exact Hrun|]. split; [exact Hall|].
    apply (Hgeneral [bounded_below] (Fraction_of_int 10) Width final 1%nat);
      [discriminate | discriminate | exact Hsum | exact Hrun | exact Hall].
Defined.

Lemma fraction_loop_rounds_bounded_witness :
  let styles := [bounded_below; bounded_above; unbounded] in
  let items := resolve_list container container Width styles in
  let state := initial_state items (Fraction_of_int 100) in
  let u := remaining_space state / remaining_fraction state in
  sums_exactly (item_weights items) /\
  (exists (final : loop_state) (rounds : nat),
      fraction_loop styles container container (Fraction_of_int 100) Width
      = Some (final, rounds) /\ (rounds <= 3)%nat) /\
  List.length items = List.length (resolved state) /\
  0 < remaining_fraction state /\
  (unresolved_count (resolved (fst (for_loop container container u items state false)))
   < unresolved_count (resolved state))%nat.
Proof.
  intros styles items state u.
  destruct (fraction_loop_rounds_bounded container container styles
              (Fraction_of_int 100) Width) as [Hbound Hround].
  assert (Hexact : sums_exactly (item_weights items))
    by (apply Qc_is_canon; reflexivity).
  assert (Hlen : List.length items = List.length (resolved state)) by reflexivity.
  assert (Hpos : 0 < remaining_fraction state) by reflexivity.
  split; [exact Hexact|]. split; [|split; [exact Hlen | split; [exact Hpos|]]].
  - destruct Hbound as (final & rounds & Hrun & _ & Hrounds).
    exists final, rounds. split; [exact Hrun | exact (Hrounds Hexact)].
  - destruct (Hround items state
                (fst (for_loop container container u items state false))
                (snd (for_loop container container u items state false))
                Hlen Hpos)
      as (_ & _ & [(_ & Hless & _) | (Hsame & _)]).
    + symmetry. apply surjective_pairing.
    + exact Hless.
    + vm_compute in Hsame. discriminate Hsame.
Defined.

Lemma resolve_fraction_unit_permutation_witness :
  let styles1 := [bounded_below; bounded_above; unbounded] in
  let styles2 := [bounded_above; bounded_below; unbounded] in
  Permutation styles1 styles2 /\
  float_sum (item_weights (resolve_list container container Width styles1))
  = float_sum (item_weights (resolve_list container container Width styles2)) /\
  resolve_fraction_unit styles1 container container (Fraction_of_int 100) Width =
  resolve_fraction_unit styles2 container container (Fraction_of_int 100) Width.
Proof.
  intros styles1 styles2.
  assert (Hperm : Permutation styles1 styles2) by apply perm_swap.
  assert (Hsum : float_sum (item_weights
                              (resolve_list container container Width styles1))
                 = float_sum (item_weights
                                (resolve_list container container Width styles2)))
    by (apply Qc_is_canon; reflexivity).
  split; [exact Hperm|]. split; [exact Hsum|].
  apply (resolve_fraction_unit_permutation container container _ _
           (Fraction_of_int 100) Width Hperm Hsum).
Defined.

Lemma resolve_fixed_layout_witness :
  let dimensions := [CellCount 3; CellCount 4; CellCount 0] in
  Forall (fun scalar => is_fraction scalar = false) dimensions /\
  py_sum (exact_lengths container container dimensions)
  + Fraction_of_int (1 * (Z.of_nat (List.length dimensions) - 1))
  <= Fraction_of_int 10 /\
  exists results : list (Z * Z),
    resolve dimensions 10 1 container container false true None = Ok results /\
    map snd results = [3; 4; 0]%Z.
Proof.
  intros dimensions.
  assert (Hfixed : Forall (fun scalar => is_fraction scalar = false) dimensions)
    by (repeat constructor).
  assert (Hfits : py_sum (exact_lengths container container dimensions)
                  + Fraction_of_int (1 * (Z.of_nat (List.length dimensions) - 1))
                  <= Fraction_of_int 10)
    by (vm_compute; discriminate).
  split; [exact Hfixed|]. split; [exact Hfits|].
  destruct (resolve_fixed_layout container container dimensions 10 1 true None
              Hfixed Hfits) as (results & Hrun & _ & _ & Hwhole & _).
  exists results. split; [exact Hrun|]. apply Hwhole. reflexivity.
Defined.

Lemma resolve_three_equal_fractions_witness :
  Fraction_of_int 2 <> 0 /\
  sums_exactly [Fraction_of_int 2; Fraction_of_int 2; Fraction_of_int 2] /\
  resolve [FractionWeight 2; FractionWeight 2; FractionWeight 2] 10 0
          container container true true (Some [1; 1; 1]%Z)
  = Ok [(0, 3); (3, 3); (6, 4)]%Z.
Proof.
  assert (Hw : Fraction_of_int 2 <> 0) by discriminate.
  assert (Hexact : sums_exactly
                     [Fraction_of_int 2; Fraction_of_int 2; Fraction_of_int 2])
    by (apply Qc_is_canon; reflexivity).
  split; [exact Hw|]. split; [exact Hexact|].
  apply (resolve_three_equal_fractions container container
           (FractionWeight 2) (FractionWeight 2) (FractionWeight 2)
           (Fraction_of_int 2));
    try reflexivity; [exact Hw | exact Hexact].
Defined.

Lemma shrink_with_minimums_witness :
  0 < Fraction_of_int 100 - Fraction_of_int 60 /\
  shrink_pass (Fraction_of_int 60) [50; 10]%Z
              [Fraction_of_int 80; Fraction_of_int 20]
              (Fraction_of_int 100) (Fraction_of_int 100 - Fraction_of_int 60)
              [Fraction_of_int 50; Fraction_of_int 10] /\
  resolve [CellCount 80; CellCount 20] 60 0 container container false true
          (Some [50; 10]%Z)
  = Ok [(0, 50); (50, 10)]%Z.
Proof.
  destruct (shrink_with_minimums container container) as (_ & Hpass & Hcells).
  assert (Hexcess : 0 < Fraction_of_int 100 - Fraction_of_int 60) by reflexivity.
  split; [|split].
  - exact Hexcess.
  - apply (Hpass (Fraction_of_int 60) (Fraction_of_int 100) [50; 10]%Z
             [Fraction_of_int 80; Fraction_of_int 20]
             [Fraction_of_int 50; Fraction_of_int 10] Hexcess).
    reflexivity.
  - apply (Hcells (CellCount 80) (CellCount 20)); reflexivity.
Defined.

(** C5 as stated fails: two cells of length 0 with gutter 0 are all fixed and
    fit in the total, and both are given the offset 0. *)
Lemma fixed_zero_cells_share_offset :
  let dimensions := [CellCount 0; CellCount 0] in
  Forall (fun scalar => is_fraction scalar = false) dimensions /\
  py_sum (exact_lengths container container dimensions)
  + Fraction_of_int (0 * (Z.of_nat (List.length dimensions) - 1))
  <= Fraction_of_int 10 /\
  resolve dimensions 10 0 container container false false None
  = Ok [(0, 0); (0, 0)]%Z /\
  ~ (forall results : list (Z * Z),
        resolve dimensions 10 0 container container false false None = Ok results ->
        forall (index : nat) (offset length offset' length' : Z),
          nth_error results index = Some (offset, length) ->
          nth_error results (S index) = Some (offset', length') ->
          (offset < offset')%Z).
Proof.
  intros dimensions. split; [|split; [|split]].
  - repeat constructor.
  - vm_compute. discriminate.
  - reflexivity.
  - intros Hclaim.
    specialize (Hclaim [(0, 0); (0, 0)]%Z eq_refl 0%nat 0%Z 0%Z 0%Z 0%Z eq_refl eq_refl).
    lia.
Qed.

(** C1 fails on the code: with two columns of 1fr, gutter 1, total 0 and
    [shrink] set, nothing is used, the excess is positive, and the final
    proportional shrink divides by the used space; with one cell of length 0
    and [expand] set the same division by the used space raises. *)
Theorem resolve_raises_zero_division (size viewport : Size) :
  resolve [FractionWeight 1; FractionWeight 1] 0 1 size viewport false true None
  = Raise ZeroDivisionError /\
  resolve [FractionWeight 1; FractionWeight 1] 0 1 size viewport false true
          (Some [0; 0]%Z)
  = Raise ZeroDivisionError /\
  resolve [CellCount 0] 10 0 size viewport true false None
  = Raise ZeroDivisionError.
Proof.
  repeat split; reflexivity.
Qed.

(** C9 fails on the code: two cells of length 10 with gutter 1 and total 0,
    [shrink] set: the proportional shrink scales by the negative available
    space, and the first cell is returned with length -1. *)
Theorem resolve_negative_length (size viewport : Size) :
  resolve [CellCount 10; CellCount 10] 0 1 size viewport false true None
  = Ok [(0, -1); (0, 0)]%Z.
Proof.
  reflexivity.
Qed.

(** *** Weights that are not whole numbers *)

(** An equation between optional fractions, or between runs of the loop, is
    decided on the numerators and denominators. *)
Lemma unit_is (result : option Fraction) (expected : Fraction) :
  option_map this result = Some (this expected) -> result = Some expected.
Proof.
  destruct result as [unit|]; cbn [option_map]; intros [= Hthis].
  f_equal. apply Qc_is_canon. rewrite Hthis. reflexivity.
Qed.

Lemma slots_are (slots expected : list (option Fraction)) :
  map (option_map this) slots = map (option_map this) expected ->
  slots = expected.
Proof.
  revert expected.
  induction slots as [|slot slots IH]; intros [|slot' expected] Hmap;
    try discriminate; [reflexivity|].
  cbn [map] in Hmap. injection Hmap as Hslot Hrest.
  f_equal; [|apply IH; exact Hrest].
  destruct slot as [bound|], slot' as [bound'|]; try discriminate; [|reflexivity].
  cbn [option_map] in Hslot. injection Hslot as Hthis.
  f_equal. apply Qc_is_canon. rewrite Hthis. reflexivity.
Qed.

Lemma loop_is (run : option (loop_state * nat)) (slots : list (option Fraction))
    (space fraction : Fraction) (rounds : nat) :
  option_map (fun '(state, n) =>
                (map (option_map this) (resolved state),
                 this (remaining_space state),
                 this (remaining_fraction state), n))
             run
  = Some (map (option_map this) slots, this space, this fraction, rounds) ->
  run = Some (mkState slots space fraction, rounds).
Proof.
  destruct run as [[[slots' space' fraction'] rounds']|]; cbn [option_map];
    [|discriminate].
  cbn [resolved remaining_space remaining_fraction].
  intros [= Hslots Hspace Hfraction ->].
  apply slots_are in Hslots. subst slots'.
  assert (Hs : space' = space) by (apply Qc_is_canon; rewrite Hspace; reflexivity).
  assert (Hf : fraction' = fraction)
    by (apply Qc_is_canon; rewrite Hfraction; reflexivity).
  rewrite Hs, Hf. reflexivity.
Qed.

(** C6 fails on the code: three fraction scalars of weight 0.1, gutter 0,
    total 10.  The weights are added up as floats, to 0.30000000000000004,
    which is 2^-55 more than three times 0.1; the unit is the total divided
    by that sum, each share is the weight itself times the unit, and three
    shares are less than 10: the lengths are 3, 3 and 3, which sum to 9.
    With the weight 1 the lengths are 3, 3 and 4. *)
Theorem resolve_three_tenths_sum_to_nine (size viewport : Size) :
  float_sum [value tenth; value tenth; value tenth]
  = float_of 5404319552844596 (-54) /\
  float_sum [value tenth; value tenth; value tenth]
  - (value tenth + value tenth + value tenth) = float_of 1 (-55) /\
  resolve [tenth; tenth; tenth] 10 0 size viewport false false None
  = Ok [(0, 3); (3, 3); (6, 3)]%Z /\
  resolve [FractionWeight 1; FractionWeight 1; FractionWeight 1] 10 0
          size viewport false false None
  = Ok [(0, 3); (3, 3); (6, 4)]%Z.
Proof.
  split; [|split; [|split]].
  - apply Qc_is_canon. vm_compute. reflexivity.
  - apply Qc_is_canon. vm_compute. reflexivity.
  - vm_compute. reflexivity.
  - vm_compute. reflexivity.
Qed.

(** C2 fails on the code: three entries of weight 0.1 with a minimum of 100
    and remaining space 10.  The first round fixes every entry to 100; the
    pool started from the float sum 0.30000000000000004 and loses three
    times 0.1 exactly, so that 2^-55 is left in it, a second round is run,
    and the space left, -290, divided by 2^-55 is returned, not 10. *)
Theorem all_clamped_returns_residue_unit :
  let styles := [weighted tenth (Some 100%Z) None;
                 weighted tenth (Some 100%Z) None;
                 weighted tenth (Some 100%Z) None] in
  fraction_loop styles container container (Fraction_of_int 10) Width
  = Some (mkState [Some (Fraction_of_int 100); Some (Fraction_of_int 100);
                   Some (Fraction_of_int 100)]
                  (Fraction_of_int (-290)) (float_of 1 (-55)), 2%nat) /\
  resolve_fraction_unit styles container container (Fraction_of_int 10) Width
  = Some (Fraction_of_int (-290) / float_of 1 (-55)) /\
  Fraction_of_int (-290) / float_of 1 (-55) <> Fraction_of_int 10.
Proof.
  intros styles. split; [|split].
  - apply loop_is. vm_compute. reflexivity.
  - apply unit_is. vm_compute. reflexivity.
  - apply Qceqb_false. vm_compute. reflexivity.
Qed.

(** C3 fails on the code: two entries, of weight 0.1 with a maximum of 5
    and of weight 0.2 with a maximum of 22, and remaining space 30.  The
    first round fixes the first entry and the second round the second; the
    pool started from the float sum 0.30000000000000004 and has lost 0.1 and
    0.2 exactly, so that 2^-55 is left in it and a third round is run, which
    fixes nothing; the space left, 3, divided by 2^-55 is returned. *)
Theorem fraction_loop_third_round :
  let styles := [weighted tenth None (Some 5%Z); weighted fifth None (Some 22%Z)] in
  List.length styles = 2%nat /\
  fraction_loop styles container container (Fraction_of_int 30) Width
  = Some (mkState [Some (Fraction_of_int 5); Some (Fraction_of_int 22)]
                  (Fraction_of_int 3) (float_of 1 (-55)), 3%nat) /\
  resolve_fraction_unit styles container container (Fraction_of_int 30) Width
  = Some (Fraction_of_int 3 / float_of 1 (-55)).
Proof.
  intros styles. split; [reflexivity|]. split.
  - apply loop_is. vm_compute. reflexivity.
  - apply unit_is. vm_compute. reflexivity.
Qed.

(** C8 fails on the code: the weights 0.1, 0.2 and 0.3 without bounds and
    remaining space 6.  Added up as floats from left to right the weights
    make 0.6000000000000001 in this order and 0.6 in the reverse order, and
    the units returned, the space divided by the sum, differ. *)
Theorem resolve_fraction_unit_order_matters :
  let styles1 := [weighted tenth None None; weighted fifth None None;
                  weighted three_tenths None None] in
  let styles2 := [weighted three_tenths None None; weighted fifth None None;
                  weighted tenth None None] in
  Permutation styles1 styles2 /\
  resolve_fraction_unit styles1 container container (Fraction_of_int 6) Width
  = Some (Fraction_of_int 6 / float_of 5404319552844596 (-53)) /\
  resolve_fraction_unit styles2 container container (Fraction_of_int 6) Width
  = Some (Fraction_of_int 6 / float_of 5404319552844595 (-53)) /\
  resolve_fraction_unit styles1 container container (Fraction_of_int 6) Width
  <> resolve_fraction_unit styles2 container container (Fraction_of_int 6) Width.
Proof.
  intros styles1 styles2.
  assert (H1 : resolve_fraction_unit styles1 container container
                                     (Fraction_of_int 6) Width
               = Some (Fraction_of_int 6 / float_of 5404319552844596 (-53)))
    by (apply unit_is; vm_compute; reflexivity).
  assert (H2 : resolve_fraction_unit styles2 container container
                                     (Fraction_of_int 6) Width
               = Some (Fraction_of_int 6 / float_of 5404319552844595 (-53)))
    by (apply unit_is; vm_compute; reflexivity).
  split; [exact (Permutation_rev styles1)|]. split; [exact H1|].
  split; [exact H2|].
  rewrite H1, H2. intros Hsame.
  apply (f_equal (option_map this)) in Hsame. vm_compute in Hsame.
  discriminate Hsame.
Qed.

(** ** Evaluations for the further properties *)

Lemma resolve_tiles_witness :
  resolve [CellCount 3; FractionWeight 1] 10 1 container container false false None
  = Ok [(0, 3); (4, 6)]%Z /\
  List.length [(0, 3); (4, 6)]%Z = 2%nat.
Proof.
  assert (Hrun : resolve [CellCount 3; FractionWeight 1] 10 1 container container
                         false false None = Ok [(0, 3); (4, 6)]%Z) by reflexivity.
  split; [exact Hrun|].
  exact (proj1 (resolve_tiles container container _ _ _ _ _ _ _ Hrun)).
Defined.

Lemma resolve_lengths_total_witness :
  resolve [CellCount 3; FractionWeight 1] 10 1 container container false false None
  = Ok [(0, 3); (4, 6)]%Z /\
  exists widths : list Fraction,
    resolved_widths [CellCount 3; FractionWeight 1] 10 1 container container
                    false false None = Ok widths /\
    zsum (map snd [(0, 3); (4, 6)]%Z) = floor (qsum widths).
Proof.
  assert (Hrun : resolve [CellCount 3; FractionWeight 1] 10 1 container container
                         false false None = Ok [(0, 3); (4, 6)]%Z) by reflexivity.
  split; [exact Hrun|].
  exact (resolve_lengths_total container container _ _ _ _ _ _ _ Hrun).
Defined.

Lemma resolve_fractions_fill_witness :
  let dimensions := [CellCount 3; FractionWeight 1; FractionWeight 2] in
  sums_exactly (fraction_weights dimensions) /\
  float_sum (fraction_weights dimensions) <> 0 /\
  py_sum (fixed_parts container container dimensions)
  <= Fraction_of_int (20 - 1 * (Z.of_nat (List.length dimensions) - 1)) /\
  resolve dimensions 20 1 container container true true (Some [1; 1; 1]%Z)
  = Ok [(0, 3); (4, 5); (10, 10)]%Z.
Proof.
  intros dimensions.
  assert (Hexact : sums_exactly (fraction_weights dimensions))
    by (apply Qc_is_canon; reflexivity).
  assert (Hweights : float_sum (fraction_weights dimensions) <> 0)
    by (apply Qceqb_false; reflexivity).
  assert (Hfits : py_sum (fixed_parts container container dimensions)
                  <= Fraction_of_int (20 - 1 * (Z.of_nat (List.length dimensions) - 1)))
    by (vm_compute; discriminate).
  split; [exact Hexact|]. split; [exact Hweights|]. split; [exact Hfits|].
  rewrite (proj1 (resolve_fractions_fill container container dimensions 20 1
                    true true (Some [1; 1; 1]%Z) Hexact Hweights Hfits)).
  reflexivity.
Defined.

Lemma resolve_expand_fills_witness :
  let dimensions := [CellCount 10; CellCount 20] in
  Forall (fun scalar => is_fraction scalar = false) dimensions /\
  py_sum (exact_lengths container container dimensions) <> 0 /\
  py_sum (exact_lengths container container dimensions)
  < Fraction_of_int (100 - 0 * (Z.of_nat (List.length dimensions) - 1)) /\
  resolve dimensions 100 0 container container true true None
  = Ok [(0, 33); (33, 67)]%Z.
Proof.
  intros dimensions.
  assert (Hfixed : Forall (fun scalar => is_fraction scalar = false) dimensions)
    by (repeat constructor).
  assert (Hused : py_sum (exact_lengths container container dimensions) <> 0)
    by (apply Qceqb_false; reflexivity).
  assert (Hshort : py_sum (exact_lengths container container dimensions)
                   < Fraction_of_int (100 - 0 * (Z.of_nat (List.length dimensions) - 1)))
    by reflexivity.
  split; [exact Hfixed|]. split; [exact Hused|]. split; [exact Hshort|].
  rewrite (proj1 (resolve_expand_fills container container dimensions 100 0 true None
                    Hfixed Hused Hshort)).
  reflexivity.
Defined.

Lemma resolve_shrink_scales_witness :
  let dimensions := [CellCount 10; CellCount 20] in
  Forall (fun scalar => is_fraction scalar = false) dimensions /\
  py_sum (exact_lengths container container dimensions) <> 0 /\
  Fraction_of_int (15 - 1 * (Z.of_nat (List.length dimensions) - 1))
  < py_sum (exact_lengths container container dimensions) /\
  resolve dimensions 15 1 container container true true None
  = Ok [(0, 4); (5, 10)]%Z.
Proof.
  intros dimensions.
  assert (Hfixed : Forall (fun scalar => is_fraction scalar = false) dimensions)
    by (repeat constructor).
  assert (Hused : py_sum (exact_lengths container container dimensions) <> 0)
    by (apply Qceqb_false; reflexivity).
  assert (Hlong : Fraction_of_int (15 - 1 * (Z.of_nat (List.length dimensions) - 1))
                  < py_sum (exact_lengths container container dimensions))
    by reflexivity.
  split; [exact Hfixed|]. split; [exact Hused|]. split; [exact Hlong|].
  rewrite (proj1 (resolve_shrink_scales container container dimensions 15 1 true
                    Hfixed Hused Hlong)).
  reflexivity.
Defined.

Lemma resolve_lengths_nonnegative_witness :
  let dimensions := [CellCount 10; CellCount 20] in
  (1 * (Z.of_nat (List.length dimensions) - 1) <= 15)%Z /\
  resolve dimensions 15 1 container container false true (Some [8; 8]%Z)
  = Ok [(0, 7); (8, 7)]%Z /\
  Forall (fun cell : Z * Z => (0 <= snd cell)%Z) [(0, 7); (8, 7)]%Z.
Proof.
  intros dimensions.
  assert (Hspace : (1 * (Z.of_nat (List.length dimensions) - 1) <= 15)%Z)
    by (vm_compute; discriminate).
  assert (Hrun : resolve dimensions 15 1 container container false true
                         (Some [8; 8]%Z) = Ok [(0, 7); (8, 7)]%Z) by reflexivity.
  split; [exact Hspace|]. split; [exact Hrun|].
  refine (proj1 (resolve_lengths_nonnegative container container dimensions 15 1
                   false true (Some [8; 8]%Z) _ Hspace _ _ Hrun)).
  - repeat constructor; vm_compute; discriminate.
  - intros mins [= <-]. repeat constructor; discriminate.
Defined.


Lemma resolve_zero_weight_raises_witness :
  let dimensions := [FractionWeight 0; CellCount 3] in
  Exists (fun scalar => is_fraction scalar = true) dimensions /\
  float_sum (fraction_weights dimensions) = 0 /\
  (resolve dimensions 10 0 container container false false None = Raise TypeError \/
   resolve dimensions 10 0 container container false false None
   = Raise AttributeError).
Proof.
  intros dimensions.
  assert (Hsome : Exists (fun scalar => is_fraction scalar = true) dimensions)
    by (constructor; reflexivity).
  assert (Hzero : float_sum (fraction_weights dimensions) = 0)
    by (apply Qc_is_canon; reflexivity).
  split; [exact Hsome|]. split; [exact Hzero|].
  apply (resolve_zero_weight_raises container container dimensions 10 0 false false
           None Hsome Hzero).
Defined.

Lemma resolve_divides_by_zero_witness :
  let dimensions := [FractionWeight 1; FractionWeight 1] in
  (0 < 1 * (Z.of_nat (List.length dimensions) - 1))%Z /\
  resolve dimensions 0 1 container container false true None
  = Raise ZeroDivisionError.
Proof.
  intros dimensions.
  assert (Htight : (0 < 1 * (Z.of_nat (List.length dimensions) - 1))%Z)
    by reflexivity.
  split; [exact Htight|].
  eapply (resolve_divides_by_zero container container dimensions 0 1 false true None).
  - vm_compute. reflexivity.
  - discriminate.
  - apply Qc_is_canon. reflexivity.
  - right. split; [reflexivity | exact Htight].
Defined.

Lemma shrink_loop_keeps_minimums_witness :
  shrink_loop (Fraction_of_int 14) [8; 8]%Z
              [Fraction_of_int 10; Fraction_of_int 20]
              (Fraction_of_int 30) (Fraction_of_int 16)
  = Ok [Fraction_of_int 8; Fraction_of_int 8] /\
  List.length [Fraction_of_int 8; Fraction_of_int 8] = 2%nat.
Proof.
  assert (Hrun : shrink_loop (Fraction_of_int 14) [8; 8]%Z
                             [Fraction_of_int 10; Fraction_of_int 20]
                             (Fraction_of_int 30) (Fraction_of_int 16)
                 = Ok [Fraction_of_int 8; Fraction_of_int 8]) by reflexivity.
  split; [exact Hrun|].
  exact (proj1 (shrink_loop_keeps_minimums _ _ _ _ _ _ Hrun)).
Defined.

Lemma resolve_fraction_unit_settles_witness :
  let styles := [weighted tenth None (Some 5%Z); weighted fifth None (Some 22%Z);
                 weighted tenth None None] in
  let items := resolve_list container container Width styles in
  Fraction_of_int 100 <> 0 /\ styles <> [] /\
  Forall (fun '(scalar, _, _) => 0 < value scalar) items /\
  Forall (fun '(scalar, _, _) =>
            qsum (item_weights items) - float_sum (item_weights items)
            < value scalar)
         items /\
  exists unit : Fraction,
    resolve_fraction_unit styles container container (Fraction_of_int 100) Width
    = Some unit.
Proof.
  intros styles items.
  assert (Hspace : Fraction_of_int 100 <> 0) by discriminate.
  assert (Hne : styles <> []) by discriminate.
  assert (Hweights : Forall (fun '(scalar, _, _) => 0 < value scalar) items)
    by (repeat constructor).
  assert (Hshort : Forall (fun '(scalar, _, _) =>
                             qsum (item_weights items) - float_sum (item_weights items)
                             < value scalar)
                          items)
    by (repeat constructor).
  split; [exact Hspace|]. split; [exact Hne|]. split; [exact Hweights|].
  split; [exact Hshort|].
  destruct (resolve_fraction_unit_settles container container styles
              (Fraction_of_int 100) Width Hspace Hne Hweights Hshort)
    as (unit & _ & _ & Hunit & _).
  exists unit. exact Hunit.
Defined.

Lemma resolve_fraction_unit_unbounded_witness :
  let styles := [unbounded; overlaid; unbounded] in
  Fraction_of_int 100 <> 0 /\ styles <> [] /\
  resolve_fraction_unit styles container container (Fraction_of_int 100) Width
  = Some (Fraction_of_int 50).
Proof.
  intros styles.
  assert (Hspace : Fraction_of_int 100 <> 0) by discriminate.
  assert (Hne : styles <> []) by discriminate.
  split; [exact Hspace|]. split; [exact Hne|].
  rewrite (resolve_fraction_unit_unbounded container container styles
             (Fraction_of_int 100) Width Hspace Hne).
  - f_equal. apply Qc_is_canon. reflexivity.
  - apply Forall_cons; [intros _; split; reflexivity|].
    apply Forall_cons; [intros Hflow; discriminate Hflow|].
    apply Forall_cons; [intros _; split; reflexivity | apply Forall_nil].
Defined.

Lemma resolve_fraction_unit_ignores_overlays_witness :
  let styles := [unbounded; overlaid; bounded_above] in
  filter in_flow styles <> [] /\
  resolve_fraction_unit [unbounded; bounded_above] container container
                        (Fraction_of_int 100) Width
  = resolve_fraction_unit styles container container (Fraction_of_int 100) Width.
Proof.
  intros styles.
  assert (Hflow : filter in_flow styles <> []) by discriminate.
  split; [exact Hflow|].
  exact (resolve_fraction_unit_ignores_overlays container container styles
           (Fraction_of_int 100) Width Hflow).
Defined.

Lemma resolve_box_models_default_unit_witness :
  let dimensions := [Some (CellCount 10); Some (FractionWeight 1)] in
  let widgets := [fixed_ten; one_fraction] in
  remaining_for Width dimensions widgets (mkSize 10 5) container (mkSize 0 0) true
  = 0%Z /\
  resolve_box_models spec_size_sub dimensions widgets (mkSize 10 5) container
                     (mkSize 0 0) Width true
  = Some [(Fraction_of_int 10, Fraction_of_int 1);
          (Fraction_of_int 1 * 1, Fraction_of_int 1)].
Proof.
  intros dimensions widgets.
  assert (Hnone : remaining_for Width dimensions widgets (mkSize 10 5) container
                                (mkSize 0 0) true = 0%Z) by reflexivity.
  split; [exact Hnone|].
  rewrite (resolve_box_models_default_unit spec_size_sub (mkSize 10 5) container
             dimensions widgets (mkSize 0 0) Width true (or_introl Hnone)).
  reflexivity.
Defined.

Lemma resolve_fraction_unit_distributes_witness :
  let styles := [bounded_below; bounded_above; unbounded] in
  Fraction_of_int 100 <> 0 /\ styles <> [] /\
  exists (final : loop_state) (rounds : nat),
    fraction_loop styles container container (Fraction_of_int 100) Width
    = Some (final, rounds) /\
    0 < remaining_fraction final /\
    exists unit : Fraction,
      resolve_fraction_unit styles container container (Fraction_of_int 100) Width
      = Some unit /\
      unit * remaining_fraction final + fixed_space (resolved final)
      = Fraction_of_int 100.
Proof.
  intros styles.
  assert (Hspace : Fraction_of_int 100 <> 0) by discriminate.
  assert (Hne : styles <> []) by discriminate.
  split; [exact Hspace|]. split; [exact Hne|].
  destruct (fraction_loop styles container container (Fraction_of_int 100) Width)
    as [[final rounds]|] eqn:Hloop; [|vm_compute in Hloop; discriminate Hloop].
  assert (Hpos : 0 < remaining_fraction final).
  { vm_compute in Hloop. injection Hloop as <- _. reflexivity. }
  exists final, rounds. split; [reflexivity|]. split; [exact Hpos|].
  destruct (resolve_fraction_unit_distributes container container styles
              (Fraction_of_int 100) Width final rounds Hspace Hne Hloop Hpos)
    as (unit & Hunit & Hgiven & _).
  exists unit. split; [exact Hunit | exact Hgiven].
Defined.
